(** * LiveTutor: the real-time duplex voice session of the tutoring client

    A shallow embedding of [components/LiveTutor.tsx]: the React component
    that captures microphone audio, streams it to the remote conversational
    service, schedules the synthesized speech it receives for gapless
    playback, aggregates transcripts and serves remote tool calls.

    The component is modelled by explicit state passing.  A value of
    [LiveTutor] holds the [useState] cells, the [useRef] cells, and the
    part of the browser the handlers act upon (pending timeouts, object
    identities, and the trace of calls made on devices and on the channel).
    Every callback of the source is a function on that state.

    Handlers run to completion: [onmessage] is taken as one step, although
    it awaits [decodeAudioData] before it starts the source.  The functions
    of [utils/audio] are outside the component: of [decodeAudioData] the
    model keeps the duration of the buffer it returns, which comes with the
    message; of [createPcmBlob] nothing, the trace records the samples sent.

    Numbers.  JavaScript numbers are binary64 floats, and so are the
    playback times and the capture volume of the model: values of [float],
    with the rounding of every operation.  Where a property speaks of the
    number a float stands for, it is read through [exact].  Only the
    visualizer, whose [Math.sin] has no counterpart here, computes over the
    reals, from the real value of the volume. *)

From Stdlib Require Import String List Bool PArith ZArith Lia QArith Qpower Qreals.
From Stdlib Require Import Reals Lra Lqa Sorted Floats.
From Stdlib Require Uint63.
Import ListNotations.

Local Open Scope string_scope.
Local Open Scope list_scope.

(** ** Binary64 numbers *)

(** [Math.max(a, b)]: NaN when either is NaN, the larger otherwise, [+0]
    being larger than [-0]. *)
Definition Math_max (a b : float) : float :=
  match (a ?= b)%float with
  | FEq => if PrimFloat.Leibniz.eqb a neg_zero then b else a
  | FLt => b
  | FGt => a
  | FNotComparable => nan
  end.

(** The rational a binary64 number stands for; 0 for NaN and the infinities. *)
Definition exact (x : float) : Q :=
  match Prim2SF x with
  | S754_finite s m e => inject_Z (cond_Zopp s (Zpos m)) * Qpower 2 e
  | _ => 0
  end.

(** ** Capture volume ([processor.onaudioprocess]) *)

(** [let sum = 0; for (i = 0; i < inputData.length; i++) sum += inputData[i] * inputData[i];] *)
Definition sumSquares (inputData : list float) : float :=
  fold_left (fun sum x => (sum + x * x)%float) inputData 0%float.

(** [inputData.length] as a number. *)
Definition lengthOf (inputData : list float) : float :=
  of_uint63 (Uint63.of_Z (Z.of_nat (List.length inputData))).

(** [const rms = Math.sqrt(sum / inputData.length);] *)
Definition rms (inputData : list float) : float :=
  PrimFloat.sqrt (sumSquares inputData / lengthOf inputData).






(** ** Data *)

(** [useState<'idle' | 'connecting' | 'active' | 'error'>] *)
Inductive Status : Type := idle | connecting | active | error.

(** [interface PronunciationTip].  The arguments of a tool call are cast to
    it unchecked ([call.args as unknown as PronunciationTip]), so at run time
    any of the three fields may be missing. *)
Record PronunciationTip : Type := mkTip {
  word : option string;
  tip : option string;
  phonetic : option string }.

(** One entry of [message.toolCall.functionCalls]; [args] is optional. *)
Record FunctionCall : Type := mkCall {
  call_id : string;
  call_name : string;
  call_args : option PronunciationTip }.

(** One entry of the [functionResponses] passed to [sendToolResponse]:
    [{ id, name, response: { result } }]. *)
Record FunctionResponse : Type := mkResponse {
  response_id : string;
  response_name : string;
  response_result : string }.

(** [message.serverContent.modelTurn.parts[0].inlineData]: the base64 text,
    together with the duration of the [AudioBuffer] that [decodeAudioData]
    (module [utils/audio]) yields for it. *)
Record InlineData : Type := mkInline {
  data : string;
  duration : float }.

(** [LiveServerMessage], as far as [onmessage] reads it.  An absent optional
    field is [None]; [toolCall] is [None] too when [functionCalls] is undefined. *)
Record LiveServerMessage : Type := mkMessage {
  inputTranscription : option string;
  outputTranscription : option string;
  turnComplete : bool;
  toolCall : option (list FunctionCall);
  inlineData : option InlineData;
  interrupted : bool }.

(** An [AudioBufferSourceNode] created by [onmessage]: its identity, the time
    passed to [source.start] and the duration of its buffer. *)
Record AudioBufferSourceNode : Type := mkSource {
  node : positive;
  startTime : float;
  bufferDuration : float }.

(** Calls the handlers make on devices, audio nodes and the channel. *)
Inductive Effect : Type :=
| TrackStop (stream : positive)               (* stream.getTracks().forEach(t => t.stop()) *)
| NodeDisconnect (n : positive)               (* sourceRef / processorRef .disconnect() *)
| ContextClose (ctx : positive)               (* AudioContext.close() *)
| SessionClose (session : positive)           (* session.close() *)
| SendRealtimeInput (samples : list float)    (* session.sendRealtimeInput({ media }) *)
| SendToolResponse (functionResponses : list FunctionResponse)
| SourceStart (source : AudioBufferSourceNode) (* source.start(t) *)
| SourceStop (n : positive).                  (* src.stop() *)

(** The component: React state, refs, and the browser around them. *)
Record LiveTutor : Type := mkLiveTutor {
  (* useState *)
  isConnected : bool;
  status : Status;
  errorMessage : option string;
  volume : float;
  aiSpeaking : bool;
  userTranscript : string;
  aiTranscript : string;
  currentTip : option PronunciationTip;
  (* useRef *)
  inputContextRef : option positive;
  outputContextRef : option positive;
  streamRef : option positive;
  processorRef : option positive;
  sourceRef : option positive;
  sessionPromiseRef : option positive;
  nextStartTimeRef : float;
  audioSourcesRef : list AudioBufferSourceNode;   (* a JS Set, in insertion order *)
  tipTimeoutRef : option positive;
  (* browser *)
  timers : list positive;                         (* pending window.setTimeout handles *)
  fresh : positive;                               (* identity of the next object created *)
  log : list Effect }.

(** The component as first rendered. *)
Definition initial : LiveTutor :=
  {| isConnected := false; status := idle; errorMessage := None; volume := 0%float;
     aiSpeaking := false; userTranscript := ""; aiTranscript := ""; currentTip := None;
     inputContextRef := None; outputContextRef := None; streamRef := None;
     processorRef := None; sourceRef := None; sessionPromiseRef := None;
     nextStartTimeRef := 0%float; audioSourcesRef := []; tipTimeoutRef := None;
     timers := []; fresh := 1%positive; log := [] |}.

(** *** Field updates *)

Definition setIsConnected (v : bool) (st : LiveTutor) : LiveTutor :=
  {| isConnected := v; status := status st; errorMessage := errorMessage st; volume := volume st;
     aiSpeaking := aiSpeaking st; userTranscript := userTranscript st;
     aiTranscript := aiTranscript st; currentTip := currentTip st;
     inputContextRef := inputContextRef st; outputContextRef := outputContextRef st;
     streamRef := streamRef st; processorRef := processorRef st; sourceRef := sourceRef st;
     sessionPromiseRef := sessionPromiseRef st; nextStartTimeRef := nextStartTimeRef st;
     audioSourcesRef := audioSourcesRef st; tipTimeoutRef := tipTimeoutRef st;
     timers := timers st; fresh := fresh st; log := log st |}.

Definition setStatus (v : Status) (st : LiveTutor) : LiveTutor :=
  {| isConnected := isConnected st; status := v; errorMessage := errorMessage st;
     volume := volume st; aiSpeaking := aiSpeaking st; userTranscript := userTranscript st;
     aiTranscript := aiTranscript st; currentTip := currentTip st;
     inputContextRef := inputContextRef st; outputContextRef := outputContextRef st;
     streamRef := streamRef st; processorRef := processorRef st; sourceRef := sourceRef st;
     sessionPromiseRef := sessionPromiseRef st; nextStartTimeRef := nextStartTimeRef st;
     audioSourcesRef := audioSourcesRef st; tipTimeoutRef := tipTimeoutRef st;
     timers := timers st; fresh := fresh st; log := log st |}.

Definition setErrorMessage (v : option string) (st : LiveTutor) : LiveTutor :=
  {| isConnected := isConnected st; status := status st; errorMessage := v; volume := volume st;
     aiSpeaking := aiSpeaking st; userTranscript := userTranscript st;
     aiTranscript := aiTranscript st; currentTip := currentTip st;
     inputContextRef := inputContextRef st; outputContextRef := outputContextRef st;
     streamRef := streamRef st; processorRef := processorRef st; sourceRef := sourceRef st;
     sessionPromiseRef := sessionPromiseRef st; nextStartTimeRef := nextStartTimeRef st;
     audioSourcesRef := audioSourcesRef st; tipTimeoutRef := tipTimeoutRef st;
     timers := timers st; fresh := fresh st; log := log st |}.

Definition setVolume (v : float) (st : LiveTutor) : LiveTutor :=
  {| isConnected := isConnected st; status := status st; errorMessage := errorMessage st;
     volume := v; aiSpeaking := aiSpeaking st; userTranscript := userTranscript st;
     aiTranscript := aiTranscript st; currentTip := currentTip st;
     inputContextRef := inputContextRef st; outputContextRef := outputContextRef st;
     streamRef := streamRef st; processorRef := processorRef st; sourceRef := sourceRef st;
     sessionPromiseRef := sessionPromiseRef st; nextStartTimeRef := nextStartTimeRef st;
     audioSourcesRef := audioSourcesRef st; tipTimeoutRef := tipTimeoutRef st;
     timers := timers st; fresh := fresh st; log := log st |}.

Definition setAiSpeaking (v : bool) (st : LiveTutor) : LiveTutor :=
  {| isConnected := isConnected st; status := status st; errorMessage := errorMessage st;
     volume := volume st; aiSpeaking := v; userTranscript := userTranscript st;
     aiTranscript := aiTranscript st; currentTip := currentTip st;
     inputContextRef := inputContextRef st; outputContextRef := outputContextRef st;
     streamRef := streamRef st; processorRef := processorRef st; sourceRef := sourceRef st;
     sessionPromiseRef := sessionPromiseRef st; nextStartTimeRef := nextStartTimeRef st;
     audioSourcesRef := audioSourcesRef st; tipTimeoutRef := tipTimeoutRef st;
     timers := timers st; fresh := fresh st; log := log st |}.

Definition setUserTranscript (v : string) (st : LiveTutor) : LiveTutor :=
  {| isConnected := isConnected st; status := status st; errorMessage := errorMessage st;
     volume := volume st; aiSpeaking := aiSpeaking st; userTranscript := v;
     aiTranscript := aiTranscript st; currentTip := currentTip st;
     inputContextRef := inputContextRef st; outputContextRef := outputContextRef st;
     streamRef := streamRef st; processorRef := processorRef st; sourceRef := sourceRef st;
     sessionPromiseRef := sessionPromiseRef st; nextStartTimeRef := nextStartTimeRef st;
     audioSourcesRef := audioSourcesRef st; tipTimeoutRef := tipTimeoutRef st;
     timers := timers st; fresh := fresh st; log := log st |}.

Definition setAiTranscript (v : string) (st : LiveTutor) : LiveTutor :=
  {| isConnected := isConnected st; status := status st; errorMessage := errorMessage st;
     volume := volume st; aiSpeaking := aiSpeaking st; userTranscript := userTranscript st;
     aiTranscript := v; currentTip := currentTip st; inputContextRef := inputContextRef st;
     outputContextRef := outputContextRef st; streamRef := streamRef st;
     processorRef := processorRef st; sourceRef := sourceRef st;
     sessionPromiseRef := sessionPromiseRef st; nextStartTimeRef := nextStartTimeRef st;
     audioSourcesRef := audioSourcesRef st; tipTimeoutRef := tipTimeoutRef st;
     timers := timers st; fresh := fresh st; log := log st |}.

Definition setCurrentTip (v : option PronunciationTip) (st : LiveTutor) : LiveTutor :=
  {| isConnected := isConnected st; status := status st; errorMessage := errorMessage st;
     volume := volume st; aiSpeaking := aiSpeaking st; userTranscript := userTranscript st;
     aiTranscript := aiTranscript st; currentTip := v; inputContextRef := inputContextRef st;
     outputContextRef := outputContextRef st; streamRef := streamRef st;
     processorRef := processorRef st; sourceRef := sourceRef st;
     sessionPromiseRef := sessionPromiseRef st; nextStartTimeRef := nextStartTimeRef st;
     audioSourcesRef := audioSourcesRef st; tipTimeoutRef := tipTimeoutRef st;
     timers := timers st; fresh := fresh st; log := log st |}.

Definition setInputContextRef (v : option positive) (st : LiveTutor) : LiveTutor :=
  {| isConnected := isConnected st; status := status st; errorMessage := errorMessage st;
     volume := volume st; aiSpeaking := aiSpeaking st; userTranscript := userTranscript st;
     aiTranscript := aiTranscript st; currentTip := currentTip st; inputContextRef := v;
     outputContextRef := outputContextRef st; streamRef := streamRef st;
     processorRef := processorRef st; sourceRef := sourceRef st;
     sessionPromiseRef := sessionPromiseRef st; nextStartTimeRef := nextStartTimeRef st;
     audioSourcesRef := audioSourcesRef st; tipTimeoutRef := tipTimeoutRef st;
     timers := timers st; fresh := fresh st; log := log st |}.

Definition setOutputContextRef (v : option positive) (st : LiveTutor) : LiveTutor :=
  {| isConnected := isConnected st; status := status st; errorMessage := errorMessage st;
     volume := volume st; aiSpeaking := aiSpeaking st; userTranscript := userTranscript st;
     aiTranscript := aiTranscript st; currentTip := currentTip st;
     inputContextRef := inputContextRef st; outputContextRef := v; streamRef := streamRef st;
     processorRef := processorRef st; sourceRef := sourceRef st;
     sessionPromiseRef := sessionPromiseRef st; nextStartTimeRef := nextStartTimeRef st;
     audioSourcesRef := audioSourcesRef st; tipTimeoutRef := tipTimeoutRef st;
     timers := timers st; fresh := fresh st; log := log st |}.

Definition setStreamRef (v : option positive) (st : LiveTutor) : LiveTutor :=
  {| isConnected := isConnected st; status := status st; errorMessage := errorMessage st;
     volume := volume st; aiSpeaking := aiSpeaking st; userTranscript := userTranscript st;
     aiTranscript := aiTranscript st; currentTip := currentTip st;
     inputContextRef := inputContextRef st; outputContextRef := outputContextRef st;
     streamRef := v; processorRef := processorRef st; sourceRef := sourceRef st;
     sessionPromiseRef := sessionPromiseRef st; nextStartTimeRef := nextStartTimeRef st;
     audioSourcesRef := audioSourcesRef st; tipTimeoutRef := tipTimeoutRef st;
     timers := timers st; fresh := fresh st; log := log st |}.

Definition setProcessorRef (v : option positive) (st : LiveTutor) : LiveTutor :=
  {| isConnected := isConnected st; status := status st; errorMessage := errorMessage st;
     volume := volume st; aiSpeaking := aiSpeaking st; userTranscript := userTranscript st;
     aiTranscript := aiTranscript st; currentTip := currentTip st;
     inputContextRef := inputContextRef st; outputContextRef := outputContextRef st;
     streamRef := streamRef st; processorRef := v; sourceRef := sourceRef st;
     sessionPromiseRef := sessionPromiseRef st; nextStartTimeRef := nextStartTimeRef st;
     audioSourcesRef := audioSourcesRef st; tipTimeoutRef := tipTimeoutRef st;
     timers := timers st; fresh := fresh st; log := log st |}.

Definition setSourceRef (v : option positive) (st : LiveTutor) : LiveTutor :=
  {| isConnected := isConnected st; status := status st; errorMessage := errorMessage st;
     volume := volume st; aiSpeaking := aiSpeaking st; userTranscript := userTranscript st;
     aiTranscript := aiTranscript st; currentTip := currentTip st;
     inputContextRef := inputContextRef st; outputContextRef := outputContextRef st;
     streamRef := streamRef st; processorRef := processorRef st; sourceRef := v;
     sessionPromiseRef := sessionPromiseRef st; nextStartTimeRef := nextStartTimeRef st;
     audioSourcesRef := audioSourcesRef st; tipTimeoutRef := tipTimeoutRef st;
     timers := timers st; fresh := fresh st; log := log st |}.

Definition setSessionPromiseRef (v : option positive) (st : LiveTutor) : LiveTutor :=
  {| isConnected := isConnected st; status := status st; errorMessage := errorMessage st;
     volume := volume st; aiSpeaking := aiSpeaking st; userTranscript := userTranscript st;
     aiTranscript := aiTranscript st; currentTip := currentTip st;
     inputContextRef := inputContextRef st; outputContextRef := outputContextRef st;
     streamRef := streamRef st; processorRef := processorRef st; sourceRef := sourceRef st;
     sessionPromiseRef := v; nextStartTimeRef := nextStartTimeRef st;
     audioSourcesRef := audioSourcesRef st; tipTimeoutRef := tipTimeoutRef st;
     timers := timers st; fresh := fresh st; log := log st |}.

Definition setNextStartTimeRef (v : float) (st : LiveTutor) : LiveTutor :=
  {| isConnected := isConnected st; status := status st; errorMessage := errorMessage st;
     volume := volume st; aiSpeaking := aiSpeaking st; userTranscript := userTranscript st;
     aiTranscript := aiTranscript st; currentTip := currentTip st;
     inputContextRef := inputContextRef st; outputContextRef := outputContextRef st;
     streamRef := streamRef st; processorRef := processorRef st; sourceRef := sourceRef st;
     sessionPromiseRef := sessionPromiseRef st; nextStartTimeRef := v;
     audioSourcesRef := audioSourcesRef st; tipTimeoutRef := tipTimeoutRef st;
     timers := timers st; fresh := fresh st; log := log st |}.

Definition setAudioSourcesRef (v : list AudioBufferSourceNode) (st : LiveTutor) : LiveTutor :=
  {| isConnected := isConnected st; status := status st; errorMessage := errorMessage st;
     volume := volume st; aiSpeaking := aiSpeaking st; userTranscript := userTranscript st;
     aiTranscript := aiTranscript st; currentTip := currentTip st;
     inputContextRef := inputContextRef st; outputContextRef := outputContextRef st;
     streamRef := streamRef st; processorRef := processorRef st; sourceRef := sourceRef st;
     sessionPromiseRef := sessionPromiseRef st; nextStartTimeRef := nextStartTimeRef st;
     audioSourcesRef := v; tipTimeoutRef := tipTimeoutRef st; timers := timers st;
     fresh := fresh st; log := log st |}.

Definition setTipTimeoutRef (v : option positive) (st : LiveTutor) : LiveTutor :=
  {| isConnected := isConnected st; status := status st; errorMessage := errorMessage st;
     volume := volume st; aiSpeaking := aiSpeaking st; userTranscript := userTranscript st;
     aiTranscript := aiTranscript st; currentTip := currentTip st;
     inputContextRef := inputContextRef st; outputContextRef := outputContextRef st;
     streamRef := streamRef st; processorRef := processorRef st; sourceRef := sourceRef st;
     sessionPromiseRef := sessionPromiseRef st; nextStartTimeRef := nextStartTimeRef st;
     audioSourcesRef := audioSourcesRef st; tipTimeoutRef := v; timers := timers st;
     fresh := fresh st; log := log st |}.

Definition setTimers (v : list positive) (st : LiveTutor) : LiveTutor :=
  {| isConnected := isConnected st; status := status st; errorMessage := errorMessage st;
     volume := volume st; aiSpeaking := aiSpeaking st; userTranscript := userTranscript st;
     aiTranscript := aiTranscript st; currentTip := currentTip st;
     inputContextRef := inputContextRef st; outputContextRef := outputContextRef st;
     streamRef := streamRef st; processorRef := processorRef st; sourceRef := sourceRef st;
     sessionPromiseRef := sessionPromiseRef st; nextStartTimeRef := nextStartTimeRef st;
     audioSourcesRef := audioSourcesRef st; tipTimeoutRef := tipTimeoutRef st; timers := v;
     fresh := fresh st; log := log st |}.

Definition setFresh (v : positive) (st : LiveTutor) : LiveTutor :=
  {| isConnected := isConnected st; status := status st; errorMessage := errorMessage st;
     volume := volume st; aiSpeaking := aiSpeaking st; userTranscript := userTranscript st;
     aiTranscript := aiTranscript st; currentTip := currentTip st;
     inputContextRef := inputContextRef st; outputContextRef := outputContextRef st;
     streamRef := streamRef st; processorRef := processorRef st; sourceRef := sourceRef st;
     sessionPromiseRef := sessionPromiseRef st; nextStartTimeRef := nextStartTimeRef st;
     audioSourcesRef := audioSourcesRef st; tipTimeoutRef := tipTimeoutRef st;
     timers := timers st; fresh := v; log := log st |}.

Definition setLog (v : list Effect) (st : LiveTutor) : LiveTutor :=
  {| isConnected := isConnected st; status := status st; errorMessage := errorMessage st;
     volume := volume st; aiSpeaking := aiSpeaking st; userTranscript := userTranscript st;
     aiTranscript := aiTranscript st; currentTip := currentTip st;
     inputContextRef := inputContextRef st; outputContextRef := outputContextRef st;
     streamRef := streamRef st; processorRef := processorRef st; sourceRef := sourceRef st;
     sessionPromiseRef := sessionPromiseRef st; nextStartTimeRef := nextStartTimeRef st;
     audioSourcesRef := audioSourcesRef st; tipTimeoutRef := tipTimeoutRef st;
     timers := timers st; fresh := fresh st; log := v |}.

(** *** Browser primitives *)

Definition emit (e : Effect) (st : LiveTutor) : LiveTutor :=
  setLog (log st ++ [e]) st.

(** [new ...()] / [create...()]: the next object identity is consumed. *)
Definition allocate (st : LiveTutor) : LiveTutor :=
  setFresh (Pos.succ (fresh st)) st.

(** [clearTimeout(h)] *)
Definition clearTimeout (h : positive) (st : LiveTutor) : LiveTutor :=
  setTimers (filter (fun t => negb (Pos.eqb t h)) (timers st)) st.

(** [tipTimeoutRef.current = window.setTimeout(() => setCurrentTip(null), 8000)] *)
Definition scheduleTipTimeout (st : LiveTutor) : LiveTutor :=
  let h := fresh st in
  allocate (setTipTimeoutRef (Some h) (setTimers (timers st ++ [h]) st)).

(** The timeout callback [() => setCurrentTip(null)] of handle [h] firing. *)
Definition tipTimeoutFired (h : positive) (st : LiveTutor) : LiveTutor :=
  if existsb (Pos.eqb h) (timers st)
  then setCurrentTip None (clearTimeout h st)
  else st.

(** ** [processor.onaudioprocess] *)

Definition onaudioprocess (inputData : list float) (st : LiveTutor) : LiveTutor :=
  let st := setVolume (rms inputData) st in
  emit (SendRealtimeInput inputData) st.

(** ** [onmessage] *)

(** [if (message.serverContent?.inputTranscription?.text) setUserTranscript(text)]:
    the empty string is falsy. *)
Definition handleInputTranscription (m : LiveServerMessage) (st : LiveTutor) : LiveTutor :=
  match inputTranscription m with
  | Some text => if (text =? "")%string then st else setUserTranscript text st
  | None => st
  end.

(** [if (...outputTranscription?.text) setAiTranscript(prev => prev + text)] *)
Definition handleOutputTranscription (m : LiveServerMessage) (st : LiveTutor) : LiveTutor :=
  match outputTranscription m with
  | Some text => if (text =? "")%string then st else setAiTranscript (aiTranscript st ++ text) st
  | None => st
  end.

(** [if (message.serverContent?.turnComplete) setAiTranscript('')] *)
Definition handleTurnComplete (m : LiveServerMessage) (st : LiveTutor) : LiveTutor :=
  if turnComplete m then setAiTranscript "" st else st.

(** The body of [calls.forEach]: a call named [showPronunciationTip] makes
    its arguments the current tip ([undefined] when it has none) and restarts
    the 8 s dismissal timeout; any other call does nothing. *)
Definition showCall (call : FunctionCall) (st : LiveTutor) : LiveTutor :=
  if (call_name call =? "showPronunciationTip")%string then
    let st := setCurrentTip (call_args call) st in
    let st := match tipTimeoutRef st with
              | Some h => clearTimeout h st
              | None => st
              end in
    scheduleTipTimeout st
  else st.

(** [calls.map(c => ({ id: c.id, name: c.name, response: { result: "OK" } }))] *)
Definition acknowledge (c : FunctionCall) : FunctionResponse :=
  {| response_id := call_id c; response_name := call_name c; response_result := "OK" |}.

(** [if (message.toolCall) { const calls = ...; if (calls && calls.length > 0) {...} }] *)
Definition handleToolCall (m : LiveServerMessage) (st : LiveTutor) : LiveTutor :=
  match toolCall m with
  | Some ((_ :: _) as calls) =>
      let st := fold_left (fun st call => showCall call st) calls st in
      emit (SendToolResponse (map acknowledge calls)) st
  | _ => st
  end.

(** How a block of [onmessage] ends: it falls through to the next block, or
    the handler returns. *)
Inductive Flow : Type :=
| Continue (st : LiveTutor)
| Return (st : LiveTutor).

(** The audio block up to its [await]: the tutor is marked as speaking, the
    handler returns when there is no output context, and the cursor is
    raised to the clock.  [now] is [outputContextRef.current.currentTime] as
    read by the handler. *)
Definition audioPrepare (now : float) (st : LiveTutor) : Flow :=
  let st := setAiSpeaking true st in
  match outputContextRef st with
  | None => Return st                            (* if (!outputContextRef.current) return; *)
  | Some _ => Continue (setNextStartTimeRef (Math_max (nextStartTimeRef st) now) st)
  end.

(** The audio block after its [await], with the duration [d] of the decoded
    buffer: a source is created, started at the cursor and added to the set,
    and the cursor moves to its end.  Without an output context
    [createBufferSource] cannot be called and nothing is done. *)
Definition audioCommit (d : float) (st : LiveTutor) : LiveTutor :=
  match outputContextRef st with
  | None => st
  | Some _ =>
      let source := {| node := fresh st;
                       startTime := nextStartTimeRef st;
                       bufferDuration := d |} in
      let st := allocate st in
      let st := emit (SourceStart source) st in
      let st := setNextStartTimeRef (nextStartTimeRef st + d)%float st in
      setAudioSourcesRef (audioSourcesRef st ++ [source]) st
  end.

(** The audio block: [if (base64Audio) {...}]; the empty string is falsy. *)
Definition handleAudio (now : float) (m : LiveServerMessage) (st : LiveTutor) : Flow :=
  match inlineData m with
  | Some chunk =>
      if (data chunk =? "")%string then Continue st
      else
        match audioPrepare now st with
        | Return st => Return st
        | Continue st => Continue (audioCommit (duration chunk) st)
        end
  | None => Continue st
  end.

(** [if (message.serverContent?.interrupted) {...}] *)
Definition handleInterrupted (m : LiveServerMessage) (st : LiveTutor) : LiveTutor :=
  if interrupted m then
    let st := setLog (log st ++ map (fun src => SourceStop (node src)) (audioSourcesRef st)) st in
    let st := setAudioSourcesRef [] st in
    let st := setNextStartTimeRef 0%float st in
    let st := setAiSpeaking false st in
    setAiTranscript "" st
  else st.

Definition onmessage (now : float) (m : LiveServerMessage) (st : LiveTutor) : LiveTutor :=
  let st := handleInputTranscription m st in
  let st := handleOutputTranscription m st in
  let st := handleTurnComplete m st in
  let st := handleToolCall m st in
  match handleAudio now m st with
  | Return st => st
  | Continue st => handleInterrupted m st
  end.

(** [source.onended] of the source with identity [n]. *)
Definition onended (n : positive) (st : LiveTutor) : LiveTutor :=
  let st := setAudioSourcesRef
              (filter (fun src => negb (Pos.eqb (node src) n)) (audioSourcesRef st)) st in
  match audioSourcesRef st with
  | [] => setAiSpeaking false st
  | _ :: _ => st
  end.

(** Messages handled one after the other, each with the clock value read
    while it is handled. *)
Definition receive (inbound : list (float * LiveServerMessage)) (st : LiveTutor) : LiveTutor :=
  fold_left (fun st nm => onmessage (fst nm) (snd nm) st) inbound st.

(** The two halves of the audio block as separate steps, for runs in which
    the handling of one chunk overlaps the decoding of another. *)
Inductive PlaybackEvent : Type :=
| Prepared (now : float)   (* a handler reached its await *)
| Decoded (d : float).     (* a decoded buffer of duration d came back *)

Definition playbackStep (st : LiveTutor) (ev : PlaybackEvent) : LiveTutor :=
  match ev with
  | Prepared now =>
      match audioPrepare now st with
      | Return st' => st'
      | Continue st' => st'
      end
  | Decoded d => audioCommit d st
  end.

Definition playback (evs : list PlaybackEvent) (st : LiveTutor) : LiveTutor :=
  fold_left playbackStep evs st.

(** ** [stopSession] *)

Definition stopSession (st : LiveTutor) : LiveTutor :=
  let st := setIsConnected false st in
  let st := setStatus idle st in
  let st := setAiSpeaking false st in
  let st := match tipTimeoutRef st with
            | Some h => clearTimeout h st
            | None => st
            end in
  (* Stop Mic *)
  let st := match streamRef st with
            | Some s => setStreamRef None (emit (TrackStop s) st)
            | None => st
            end in
  (* Disconnect Audio Nodes *)
  let st := match sourceRef st with
            | Some n => setSourceRef None (emit (NodeDisconnect n) st)
            | None => st
            end in
  let st := match processorRef st with
            | Some n => setProcessorRef None (emit (NodeDisconnect n) st)
            | None => st
            end in
  (* Close Contexts *)
  let st := match inputContextRef st with
            | Some c => setInputContextRef None (emit (ContextClose c) st)
            | None => st
            end in
  let st := match outputContextRef st with
            | Some c => setOutputContextRef None (emit (ContextClose c) st)
            | None => st
            end in
  (* Close Session *)
  match sessionPromiseRef st with
  | Some s => setSessionPromiseRef None (emit (SessionClose s) st)
  | None => st
  end.

(** ** [startSession] *)

(** The synchronous prefix: the state resets, then both audio contexts are
    created; the function then awaits [getUserMedia]. *)
Definition startSession_reset (st : LiveTutor) : LiveTutor :=
  let st := setStatus connecting st in
  let st := setErrorMessage None st in
  let st := setUserTranscript "" st in
  let st := setAiTranscript "" st in
  setCurrentTip None st.

Definition startSession_begin (st : LiveTutor) : LiveTutor :=
  let st := startSession_reset st in
  let st := allocate (setInputContextRef (Some (fresh st)) st) in
  allocate (setOutputContextRef (Some (fresh st)) st).

(** The [catch] block. *)
Definition startSession_catch (st : LiveTutor) : LiveTutor :=
  let st := setErrorMessage (Some "Could not access microphone or connect.") st in
  setStatus error st.

(** The continuation after [await getUserMedia]: [granted] tells whether the
    promise resolved with a stream.  [outputContextRef.current.createGain()]
    throws when the ref is null. *)
Definition startSession_resume (granted : bool) (st : LiveTutor) : LiveTutor :=
  if granted then
    let st := allocate (setStreamRef (Some (fresh st)) st) in
    match outputContextRef st with
    | None => startSession_catch st
    | Some _ =>
        let st := allocate st in                                   (* outputNode *)
        allocate (setSessionPromiseRef (Some (fresh st)) st)       (* live.connect *)
    end
  else startSession_catch st.

Definition startSession (granted : bool) (st : LiveTutor) : LiveTutor :=
  startSession_resume granted (startSession_begin st).

(** ** Channel callbacks *)

Definition onopen (st : LiveTutor) : LiveTutor :=
  let st := setStatus active st in
  let st := setIsConnected true st in
  match inputContextRef st with
  | None => st
  | Some _ =>
      let st := allocate (setSourceRef (Some (fresh st)) st) in
      allocate (setProcessorRef (Some (fresh st)) st)
  end.

Definition onclose (st : LiveTutor) : LiveTutor := stopSession st.

Definition onerror (st : LiveTutor) : LiveTutor :=
  let st := setErrorMessage (Some "Connection error. Please try again.") st in
  stopSession st.

(** ** What the user can do *)

(** The Start button is rendered when [!isConnected] and is disabled while
    [status === 'connecting']. *)
Definition canStart (st : LiveTutor) : bool :=
  negb (isConnected st) &&
  match status st with connecting => false | _ => true end.

(** ** Observations on the trace *)

(** The sources started, in the order of their [start] calls. *)
Fixpoint started (l : list Effect) : list AudioBufferSourceNode :=
  match l with
  | [] => []
  | SourceStart s :: l => s :: started l
  | _ :: l => started l
  end.

(** The sources stopped by [src.stop()]. *)
Fixpoint stopped (l : list Effect) : list positive :=
  match l with
  | [] => []
  | SourceStop n :: l => n :: stopped l
  | _ :: l => stopped l
  end.

(** The acknowledgements sent, over all [sendToolResponse] calls. *)
Fixpoint acknowledgements (l : list Effect) : list FunctionResponse :=
  match l with
  | [] => []
  | SendToolResponse rs :: l => rs ++ acknowledgements l
  | _ :: l => acknowledgements l
  end.

(** What a handler added to the trace. *)
Definition emitted (before after : LiveTutor) : list Effect :=
  skipn (List.length (log before)) (log after).

(** The chunk a message carries, if the audio block acts on it: the clock
    value read and the duration of the decoded buffer. *)
Definition audioOf (nm : float * LiveServerMessage) : option (float * float) :=
  match inlineData (snd nm) with
  | Some chunk => if (data chunk =? "")%string then None else Some (fst nm, duration chunk)
  | None => None
  end.


(** Start time and duration of a scheduled source. *)
Definition timing (s : AudioBufferSourceNode) : float * float :=
  (startTime s, bufferDuration s).


(** The end of a source as the scheduler computes it. *)
Definition scheduledEnd (s : AudioBufferSourceNode) : float :=
  (startTime s + bufferDuration s)%float.

(** [a] has ended, by the scheduler's sum, when [b] starts. *)
Definition precedes (a b : AudioBufferSourceNode) : Prop :=
  (scheduledEnd a <=? startTime b)%float = true.


(** A clock value or a duration: a number that is not negative. *)
Definition notNegative (x : float) : Prop := (0 <=? x)%float = true.

(** The blocks of [onmessage] that precede the audio block. *)
Definition beforeAudio (m : LiveServerMessage) (st : LiveTutor) : LiveTutor :=
  handleToolCall m
    (handleTurnComplete m (handleOutputTranscription m (handleInputTranscription m st))).

(** The transcription blocks alone. *)
Definition handleTranscription (m : LiveServerMessage) (st : LiveTutor) : LiveTutor :=
  handleTurnComplete m (handleOutputTranscription m (handleInputTranscription m st)).

(** The acknowledgement a message's tool calls are answered with. *)
Definition toolResponse (m : LiveServerMessage) : list Effect :=
  match toolCall m with
  | Some ((_ :: _) as calls) => [SendToolResponse (map acknowledge calls)]
  | _ => []
  end.

(** The sources a run of messages starts. *)
Definition scheduledBy (inbound : list (float * LiveServerMessage)) (st : LiveTutor)
  : list AudioBufferSourceNode :=
  started (emitted st (receive inbound st)).

(** The tool invocations a message delivers. *)
Definition invocations (m : LiveServerMessage) : list FunctionCall :=
  match toolCall m with
  | Some calls => calls
  | None => []
  end.

(** The acknowledgement [r] answers the invocation [c]. *)
Definition answers (c : FunctionCall) (r : FunctionResponse) : Prop :=
  response_id r = call_id c /\ response_name r = call_name c.

(** The message carries a chunk that the audio block drops with an early
    [return], because the output context is gone. *)
Definition dropsAudio (m : LiveServerMessage) (st : LiveTutor) : bool :=
  match inlineData m, outputContextRef st with
  | Some chunk, None => negb (data chunk =? "")%string
  | _, _ => false
  end.

(** The text a message adds to the remote transcript. *)
Definition delta (m : LiveServerMessage) : string :=
  match outputTranscription m with
  | Some text => text
  | None => ""
  end.

(** The current tip after the calls of a list have been handled, given the
    one before: the arguments of the last [showPronunciationTip] call,
    whatever fields they have, and none when that call has no arguments. *)
Definition shownTip (calls : list FunctionCall) (current : option PronunciationTip)
  : option PronunciationTip :=
  fold_left (fun shown call =>
               if (call_name call =? "showPronunciationTip")%string
               then call_args call else shown)
            calls current.


(** The call owed for a ref: none when the ref is null. *)
Definition owed (release : positive -> Effect) (ref : option positive) : list Effect :=
  match ref with
  | Some h => [release h]
  | None => []
  end.

(** The calls a teardown owes for the handles the refs hold: the stream's
    tracks stopped, both capture nodes disconnected, both audio contexts
    closed, the channel closed. *)
Definition releases (st : LiveTutor) : list Effect :=
  owed TrackStop (streamRef st) ++
  owed NodeDisconnect (sourceRef st) ++
  owed NodeDisconnect (processorRef st) ++
  owed ContextClose (inputContextRef st) ++
  owed ContextClose (outputContextRef st) ++
  owed SessionClose (sessionPromiseRef st).

(** No ref holds a handle. *)
Definition released (st : LiveTutor) : Prop :=
  streamRef st = None /\ sourceRef st = None /\ processorRef st = None /\
  inputContextRef st = None /\ outputContextRef st = None /\ sessionPromiseRef st = None.

(** The sources started so far are in order: each has ended when a later
    one starts, and all have ended at the cursor. *)
Definition scheduleOrdered (st : LiveTutor) : Prop :=
  notNegative (nextStartTimeRef st) /\
  StronglySorted precedes (started (log st)) /\
  Forall (fun s => (scheduledEnd s <=? nextStartTimeRef st)%float = true) (started (log st)).

(** The clock value or the duration of a playback event is not negative. *)
Definition wellTimed (ev : PlaybackEvent) : Prop :=
  match ev with
  | Prepared now => notNegative now
  | Decoded d => notNegative d
  end.

(** ** Frames: what a block of the handlers leaves as it is *)

(** What [showCall] cannot change. *)
Record sameButTip (st st' : LiveTutor) : Prop := {
  sbt_isConnected : isConnected st' = isConnected st;
  sbt_status : status st' = status st;
  sbt_errorMessage : errorMessage st' = errorMessage st;
  sbt_aiSpeaking : aiSpeaking st' = aiSpeaking st;
  sbt_userTranscript : userTranscript st' = userTranscript st;
  sbt_aiTranscript : aiTranscript st' = aiTranscript st;
  sbt_outputContextRef : outputContextRef st' = outputContextRef st;
  sbt_nextStartTimeRef : nextStartTimeRef st' = nextStartTimeRef st;
  sbt_audioSourcesRef : audioSourcesRef st' = audioSourcesRef st;
  sbt_log : log st' = log st }.

(** What the transcription blocks cannot change. *)
Record sameButTranscripts (st st' : LiveTutor) : Prop := {
  sbs_isConnected : isConnected st' = isConnected st;
  sbs_status : status st' = status st;
  sbs_errorMessage : errorMessage st' = errorMessage st;
  sbs_aiSpeaking : aiSpeaking st' = aiSpeaking st;
  sbs_currentTip : currentTip st' = currentTip st;
  sbs_outputContextRef : outputContextRef st' = outputContextRef st;
  sbs_nextStartTimeRef : nextStartTimeRef st' = nextStartTimeRef st;
  sbs_audioSourcesRef : audioSourcesRef st' = audioSourcesRef st;
  sbs_tipTimeoutRef : tipTimeoutRef st' = tipTimeoutRef st;
  sbs_timers : timers st' = timers st;
  sbs_fresh : fresh st' = fresh st;
  sbs_log : log st' = log st }.

(** What the audio and interruption blocks cannot change. *)
Record sameButPlayback (st st' : LiveTutor) : Prop := {
  sbp_isConnected : isConnected st' = isConnected st;
  sbp_status : status st' = status st;
  sbp_errorMessage : errorMessage st' = errorMessage st;
  sbp_userTranscript : userTranscript st' = userTranscript st;
  sbp_currentTip : currentTip st' = currentTip st;
  sbp_outputContextRef : outputContextRef st' = outputContextRef st;
  sbp_tipTimeoutRef : tipTimeoutRef st' = tipTimeoutRef st;
  sbp_timers : timers st' = timers st }.

(** ** Sample inputs *)

Definition noMessage : LiveServerMessage :=
  {| inputTranscription := None; outputTranscription := None; turnComplete := false;
     toolCall := None; inlineData := None; interrupted := false |}.

(** A message that carries one audio chunk and nothing else. *)
Definition audioMessage (base64 : string) (d : float) : LiveServerMessage :=
  {| inputTranscription := None; outputTranscription := None; turnComplete := false;
     toolCall := None; inlineData := Some {| data := base64; duration := d |};
     interrupted := false |}.

(** A session that has been started and whose channel has opened. *)
Definition activeSession : LiveTutor := onopen (startSession true initial).

(** Three chunks: the second arrives while the first still plays, the third
    after the queue has run dry. *)
Definition threeChunks : list (float * LiveServerMessage) :=
  [ (0, audioMessage "UklGRg" 0.5);
    (0.25, audioMessage "AAAA" 0.5);
    (3, audioMessage "BBBB" 1) ]%float.




(** A message that delivers tool calls and nothing else. *)
Definition toolMessage (calls : list FunctionCall) : LiveServerMessage :=
  {| inputTranscription := None; outputTranscription := None; turnComplete := false;
     toolCall := Some calls; inlineData := None; interrupted := false |}.


(** A [showPronunciationTip] call without its required [tip]. *)
Definition tipWithoutAdvice : FunctionCall :=
  {| call_id := "t2"; call_name := "showPronunciationTip";
     call_args := Some {| word := Some "think"; tip := None; phonetic := None |} |}.

(** A [showPronunciationTip] call without any arguments. *)
Definition tipWithoutArgs : FunctionCall :=
  {| call_id := "t3"; call_name := "showPronunciationTip"; call_args := None |}.

(** The call of the specification's scenario. *)
Definition thinkCall : FunctionCall :=
  {| call_id := "t1"; call_name := "showPronunciationTip";
     call_args := Some {| word := Some "think"; tip := Some "tongue between teeth";
                          phonetic := None |} |}.

(** A message in mid-conversation: what the user said, what the tutor
    answers, a tip and a chunk of speech two seconds long. *)
Definition tutorSpeaks : LiveServerMessage :=
  {| inputTranscription := Some "I sink so"; outputTranscription := Some "Try: think.";
     turnComplete := false; toolCall := Some [thinkCall];
     inlineData := Some {| data := "UklGRg"; duration := 2 |}; interrupted := false |}.

(** The session while the tutor speaks. *)
Definition talking : LiveTutor := onmessage 0 tutorSpeaks activeSession.

(** An interruption that arrives in a message which also carries audio. *)
Definition interruptedWithAudio : LiveServerMessage :=
  {| inputTranscription := None; outputTranscription := None; turnComplete := false;
     toolCall := None; inlineData := Some {| data := "AAAA"; duration := 1 |};
     interrupted := true |}.

(** A bare interruption. *)
Definition interruption : LiveServerMessage :=
  {| inputTranscription := None; outputTranscription := None; turnComplete := false;
     toolCall := None; inlineData := None; interrupted := true |}.

(** A user transcription event whose text is empty. *)
Definition emptyUserFragment : LiveServerMessage :=
  {| inputTranscription := Some ""; outputTranscription := None; turnComplete := false;
     toolCall := None; inlineData := None; interrupted := false |}.

(** ** The component's events *)

(** The tip's close button: [onClick={() => setCurrentTip(null)}]. *)
Definition dismissTip (st : LiveTutor) : LiveTutor := setCurrentTip None st.

(** What can happen to the mounted component: the user's clicks, the
    settling of [getUserMedia], the channel's callbacks, the audio graph's
    callbacks and the tip's timeout. *)
Inductive Event : Type :=
| StartClicked                                   (* startSession, up to its await *)
| MediaSettled (granted : bool)                  (* startSession, after its await *)
| ChannelOpened                                  (* onopen *)
| MessageReceived (now : float) (m : LiveServerMessage)
| SourceEnded (n : positive)                     (* source.onended *)
| AudioProcessed (inputData : list float)        (* processor.onaudioprocess *)
| TipTimedOut (h : positive)
| TipDismissed
| StopClicked                                    (* stopSession *)
| ChannelClosed                                  (* onclose *)
| ChannelFailed.                                 (* onerror *)

Definition handle (st : LiveTutor) (ev : Event) : LiveTutor :=
  match ev with
  | StartClicked => startSession_begin st
  | MediaSettled granted => startSession_resume granted st
  | ChannelOpened => onopen st
  | MessageReceived now m => onmessage now m st
  | SourceEnded n => onended n st
  | AudioProcessed inputData => onaudioprocess inputData st
  | TipTimedOut h => tipTimeoutFired h st
  | TipDismissed => dismissTip st
  | StopClicked => stopSession st
  | ChannelClosed => onclose st
  | ChannelFailed => onerror st
  end.

Definition run (evs : list Event) (st : LiveTutor) : LiveTutor :=
  fold_left handle evs st.

(** The clock value a message is handled at and the duration of its chunk
    are numbers that are not negative. *)
Definition wellClocked (ev : Event) : Prop :=
  match ev with
  | MessageReceived now m =>
      notNegative now /\
      match inlineData m with
      | Some chunk => notNegative (duration chunk)
      | None => True
      end
  | _ => True
  end.

(** The events of a running session: everything but starting, opening and
    tearing down. *)
Definition inSession (ev : Event) : Prop :=
  match ev with
  | MessageReceived _ _ | SourceEnded _ | AudioProcessed _ | TipTimedOut _ | TipDismissed =>
      True
  | _ => False
  end.

(** The device handles the refs hold. *)
Definition devices (st : LiveTutor)
  : option positive * option positive * option positive *
    option positive * option positive * option positive :=
  (streamRef st, sourceRef st, processorRef st,
   inputContextRef st, outputContextRef st, sessionPromiseRef st).

(** The calls that give a device or the channel back. *)
Definition isRelease (e : Effect) : bool :=
  match e with
  | TrackStop _ | NodeDisconnect _ | ContextClose _ | SessionClose _ => true
  | _ => false
  end.

(** At most one dismissal timeout is pending, and it is the one the ref
    holds. *)
Definition tipTimerTracked (st : LiveTutor) : Prop :=
  timers st = [] \/
  exists h, timers st = [h] /\ tipTimeoutRef st = Some h /\ (h < fresh st)%positive.

(** The identity of the [k]-th object created from state [st] on. *)
Definition newObject (st : LiveTutor) (k : nat) : positive :=
  Nat.iter k Pos.succ (fresh st).

(** A later state with the same pending timeouts and the same timeout ref. *)
Definition sameTimers (st st' : LiveTutor) : Prop :=
  timers st' = timers st /\ tipTimeoutRef st' = tipTimeoutRef st /\
  (fresh st <= fresh st')%positive.


(** A run of the events of a session: a tip with speech, a capture window,
    and the end of the source. *)
Definition sessionEvents : list Event :=
  [ MessageReceived 0 tutorSpeaks; AudioProcessed [0; 0]%float; SourceEnded 9 ].


(** The sources of a list end one after the other. *)
Definition endAll (ns : list positive) (st : LiveTutor) : LiveTutor :=
  fold_left (fun st n => onended n st) ns st.

(** ** [drawVisualizer] and the rendered controls *)

(** [const baseRadius = 40;] *)
Definition baseRadius : R := 40.

(** [const pulse = (Date.now() / 1000) * 5;] *)
Definition pulseAt (dateNow : R) : R := (dateNow / 1000 * 5)%R.

(** The volume as a real number: the number the float stands for. *)
Definition volumeOf (st : LiveTutor) : R := Q2R (exact (volume st)).

(** [const scale = isConnected ? 1 + Math.sin(pulse) * 0.1 + (volume * 2) : 1;] *)
Definition rippleScale (st : LiveTutor) (dateNow : R) : R :=
  if isConnected st then (1 + sin (pulseAt dateNow) * (1 / 10) + volumeOf st * 2)%R else 1%R.

(** The radius of the first [ctx.arc]: [baseRadius * scale]. *)
Definition rippleRadius (st : LiveTutor) (dateNow : R) : R :=
  (baseRadius * rippleScale st dateNow)%R.

(** The radius of the second [ctx.arc]: [baseRadius * 0.8]. *)
Definition coreRadius : R := (baseRadius * (8 / 10))%R.

(** [ctx.fillStyle] of the ripple and of the core disc. *)
Definition rippleFill (st : LiveTutor) : string :=
  if aiSpeaking st then "rgba(79, 70, 229, 0.2)" else "rgba(16, 185, 129, 0.2)".

Definition coreFill (st : LiveTutor) : string :=
  if aiSpeaking st then "#4F46E5" else if isConnected st then "#10B981" else "#9CA3AF".

(** The text over the visualizer: one line per status, none for [error]. *)
Definition statusLabel (st : LiveTutor) : option string :=
  match status st with
  | active => Some (if aiSpeaking st then "Listening to AI..." else "Your Turn")
  | idle => Some "Ready to start?"
  | connecting => Some "Connecting..."
  | error => None
  end.

(** The button under the captions. *)
Inductive Control : Type :=
| StartConversation (disabled : bool)
| EndSession.

Definition control (st : LiveTutor) : Control :=
  if negb (isConnected st)
  then StartConversation match status st with connecting => true | _ => false end
  else EndSession.

(** ** Captions over a run of messages *)

(** The message empties the remote transcript: it signals turn-complete, or
    an interruption that reaches its block. *)
Definition clearsRemote (st : LiveTutor) (m : LiveServerMessage) : bool :=
  turnComplete m || (interrupted m && negb (dropsAudio m st)).

(** The remote caption after a run: the fragments since the last message
    that emptied it. *)
Definition remoteCaption (st : LiveTutor) (inbound : list (float * LiveServerMessage))
           (caption : string) : string :=
  fold_left (fun acc nm => if clearsRemote st (snd nm) then ""%string
                           else (acc ++ delta (snd nm))%string)
            inbound caption.

(** The user caption after a run: the last user fragment that was not empty. *)
Definition userCaption (inbound : list (float * LiveServerMessage)) (caption : string)
  : string :=
  fold_left (fun acc nm => match inputTranscription (snd nm) with
                           | Some t => if (t =? "")%string then acc else t
                           | None => acc
                           end)
            inbound caption.

(** * TextTutor: the text chat ([components/TextTutor.tsx])

    Strings are sequences of code units below 256.  A message id is the
    decimal string of a clock reading; the model keeps the reading itself,
    which the string determines. *)

(** [role: 'user' | 'model'] *)
Inductive Role : Type := user | model.

(** [interface ChatMessage], without the two optional fields the component
    never sets. *)
Record ChatMessage : Type := mkChat {
  msg_id : Z;
  role : Role;
  text : string }.

(** The component's state, and the messages passed to [sendMessageStream]. *)
Record TextTutor : Type := mkTextTutor {
  messages : list ChatMessage;
  input : string;
  isLoading : bool;
  sent : list string }.

(** ECMAScript's WhiteSpace and LineTerminator code points below 256: what
    [trim] removes. *)
Definition isWhiteSpace (c : Ascii.ascii) : bool :=
  match Ascii.nat_of_ascii c with
  | 9 | 10 | 11 | 12 | 13 | 32 | 160 => true
  | _ => false
  end%nat.

(** [!input.trim()]: the input has nothing but white space. *)
Fixpoint blank (s : string) : bool :=
  match s with
  | EmptyString => true
  | String c rest => isWhiteSpace c && blank rest
  end.

(** How the remote service answers one request, with the clock readings the
    handler takes on the way. *)
Inductive StreamEnd : Type :=
| Completed
| Thrown (failedAt : Z).            (* the iteration throws; Date.now() in the catch block *)

Inductive Outcome : Type :=
| Rejected (failedAt : Z)           (* sendMessageStream rejects *)
| Streaming (startedAt : Z)         (* Date.now() for botMsgId *)
            (chunks : list (option string))   (* c.text of each chunk *)
            (ending : StreamEnd).

Definition apology : string :=
  "I'm sorry, I encountered an error connecting to the service. Please try again.".

(** [prev.map(msg => msg.id === botMsgId ? { ...msg, text: fullText } : msg)] *)
Definition setText (botMsgId : Z) (fullText : string) (msgs : list ChatMessage)
  : list ChatMessage :=
  map (fun msg => if (msg_id msg =? botMsgId)%Z
                  then {| msg_id := msg_id msg; role := role msg; text := fullText |}
                  else msg) msgs.

(** One turn of [for await (const chunk of resultStream)]: a chunk with a
    text that is not empty extends [fullText] and is written to the messages. *)
Definition receiveChunk (botMsgId : Z) (acc : string * list ChatMessage)
           (chunk : option string) : string * list ChatMessage :=
  match chunk with
  | Some t =>
      if (t =? "")%string then acc
      else ((fst acc ++ t)%string, setText botMsgId (fst acc ++ t)%string (snd acc))
  | None => acc
  end.

(** [handleSend], with the clock reading [sentAt] of the user message and
    the outcome of the request. *)
Definition handleSend (sentAt : Z) (outcome : Outcome) (st : TextTutor) : TextTutor :=
  if blank (input st) || isLoading st then st
  else
    let userMsg := {| msg_id := sentAt; role := user; text := input st |} in
    let msgs := messages st ++ [userMsg] in
    let requests := sent st ++ [text userMsg] in
    let msgs :=
      match outcome with
      | Rejected failedAt =>
          msgs ++ [{| msg_id := failedAt; role := model; text := apology |}]
      | Streaming startedAt chunks ending =>
          let botMsgId := (startedAt + 1)%Z in
          let msgs := msgs ++ [{| msg_id := botMsgId; role := model; text := "" |}] in
          let msgs := snd (fold_left (receiveChunk botMsgId) chunks (""%string, msgs)) in
          match ending with
          | Completed => msgs
          | Thrown failedAt =>
              msgs ++ [{| msg_id := failedAt; role := model; text := apology |}]
          end
      end in
    {| messages := msgs; input := ""; isLoading := false; sent := requests |}.

(** The text of a stream: its chunks with a text, one after the other. *)
Definition streamed (chunks : list (option string)) : string :=
  fold_left (fun acc chunk => match chunk with
                              | Some t => (acc ++ t)%string
                              | None => acc
                              end) chunks ""%string.

(** What the outcome of a request appends after the user's message. *)
Definition answer (outcome : Outcome) : list ChatMessage :=
  match outcome with
  | Rejected failedAt => [{| msg_id := failedAt; role := model; text := apology |}]
  | Streaming startedAt chunks ending =>
      {| msg_id := (startedAt + 1)%Z; role := model; text := streamed chunks |} ::
      match ending with
      | Completed => []
      | Thrown failedAt => [{| msg_id := failedAt; role := model; text := apology |}]
      end
  end.

(** The bot's id is new when the stream starts no earlier than the message
    was sent and than every id on the page. *)
Definition clockMovesOn (sentAt : Z) (outcome : Outcome) (st : TextTutor) : Prop :=
  match outcome with
  | Rejected _ => True
  | Streaming startedAt _ _ =>
      (sentAt <= startedAt)%Z /\ Forall (fun msg => (msg_id msg <= startedAt)%Z) (messages st)
  end.

(** *** [renderMessageContent] *)

Definition correctionMarker : string := "**Correction:**".
Definition excellentMarker : string := "**Excellent!**".

(** [text.split] at the two markers, with the markers kept (the regular
    expression captures them): the text is
    scanned from left to right; where one of the two markers starts, the
    piece read so far and the marker are put out and the scan goes on behind
    the marker; the piece left at the end is put out too.  [skip] counts the
    characters of a marker still to pass over, [piece] is the piece read so
    far. *)
Fixpoint splitFrom (skip : nat) (piece : string) (s : string) : list string :=
  match s with
  | EmptyString => [piece]
  | String c rest =>
      match skip with
      | S k => splitFrom k piece rest
      | O =>
          if prefix correctionMarker s
          then piece :: correctionMarker
                     :: splitFrom (String.length correctionMarker - 1) "" rest
          else if prefix excellentMarker s
          then piece :: excellentMarker
                     :: splitFrom (String.length excellentMarker - 1) "" rest
          else splitFrom 0 (piece ++ String c "") rest
      end
  end.

Definition splitMarkers (s : string) : list string := splitFrom 0 "" s.

(** What [renderMessageContent] returns: one paragraph, or a list of spans. *)
Inductive Span : Type :=
| CorrectionLabel           (* the span that reads "Correction:" *)
| ExcellentLabel            (* the span that reads "Excellent!" *)
| PlainSpan (s : string).

Inductive Rendered : Type :=
| Paragraph (s : string)
| Spans (spans : list Span).

Definition toSpan (part : string) : Span :=
  if (part =? correctionMarker)%string then CorrectionLabel
  else if (part =? excellentMarker)%string then ExcellentLabel
  else PlainSpan part.

Definition renderMessageContent (s : string) : Rendered :=
  let parts := splitMarkers s in
  if (1 <? List.length parts)%nat then Spans (map toSpan parts) else Paragraph s.

(** [parts.join('')] *)
Definition joined (parts : list string) : string :=
  fold_right String.append ""%string parts.

(** The characters a rendered message shows or stands for. *)
Definition spanText (sp : Span) : string :=
  match sp with
  | CorrectionLabel => correctionMarker
  | ExcellentLabel => excellentMarker
  | PlainSpan s => s
  end.

Definition isMarker (p : string) : Prop :=
  p = correctionMarker \/ p = excellentMarker.

(** No marker occurs in [p]. *)
Definition markerFree (p : string) : Prop :=
  forall a b m, isMarker m -> p <> (a ++ m ++ b)%string.

(** Pieces without a marker in them, with one marker between any two. *)
Inductive Alternating : list string -> Prop :=
| alt_last p : markerFree p -> Alternating [p]
| alt_more p m rest :
    markerFree p -> isMarker m -> Alternating rest -> Alternating (p :: m :: rest).

(** No marker starts inside the piece read so far, given what follows it. *)
Definition pending (piece s : string) : Prop :=
  forall a b, piece = (a ++ b)%string -> b <> ""%string ->
              prefix correctionMarker (b ++ s) = false /\
              prefix excellentMarker (b ++ s) = false.

(** ** Proof steps shared by the lemmas on [onmessage] *)

(** The cases of the three transcription blocks. *)
Ltac transcription_cases m :=
  unfold handleTranscription, handleTurnComplete, handleOutputTranscription,
    handleInputTranscription;
  let t := fresh "t" in
  let u := fresh "u" in
  destruct (inputTranscription m) as [t|]; [destruct (t =? "")%string|];
  (destruct (outputTranscription m) as [u|]; [destruct (u =? "")%string|]);
  destruct (turnComplete m).

(** The cases of the audio block followed by the interruption block, the
    audio block starting in state [st]. *)
Ltac audio_cases m st :=
  unfold handleAudio, handleInterrupted, audioPrepare, audioCommit;
  let chunk := fresh "chunk" in
  let Hctx := fresh "Hctx" in
  destruct (inlineData m) as [chunk|]; [destruct (data chunk =? "")%string|];
  cbn [outputContextRef setAiSpeaking];
  destruct (outputContextRef st) eqn:Hctx;
  cbn [outputContextRef setAiSpeaking setNextStartTimeRef];
  rewrite ?Hctx;
  destruct (interrupted m).

(** Case analysis on the comparisons of exponents and mantissas. *)
Ltac order_cases :=
  repeat match goal with
         | |- context [(?a ?= ?b)%Z] => destruct (Z.compare_spec a b); subst
         | H : context [(?a ?= ?b)%Z] |- _ => destruct (Z.compare_spec a b); subst
         end;
  try discriminate; try lia; try reflexivity;
  change (Pos.compare_cont Eq) with Pos.compare in *;
  repeat match goal with
         | |- context [(?a ?= ?b)%positive] => destruct (Pos.compare_spec a b); subst
         | H : context [(?a ?= ?b)%positive] |- _ => destruct (Pos.compare_spec a b); subst
         end;
  cbn in *; try discriminate; try lia; try reflexivity.

(** * Properties *)

(** ** Binary64 arithmetic *)

(** *** Comparison *)

Lemma SFcompare_refl x : x <> S754_nan -> SFcompare x x = Some Eq.
Proof.
  destruct x as [s|s| |s m e]; intros H; try congruence; cbn.
  - reflexivity.
  - now destruct s.
  - destruct s; rewrite Z.compare_refl, Pcompare_refl; reflexivity.
Qed.



Lemma SFleb_trans x y z : SFleb x y = true -> SFleb y z = true -> SFleb x z = true.
Proof.
  unfold SFleb.
  destruct x as [s|s| |s m e], y as [s'|s'| |s' m' e'], z as [s''|s''| |s'' m'' e''];
    cbn; try destruct s; try destruct s'; try destruct s''; try discriminate; try reflexivity;
    intros H1 H2; order_cases.
Qed.

(** *** Rounding to nearest *)

Lemma digits2_pos_log2 p : Zpos (digits2_pos p) = Z.succ (Z.log2 (Zpos p)).
Proof.
  induction p as [p IH|p IH|]; cbn [digits2_pos]; try reflexivity.
  - rewrite Pos2Z.inj_succ, IH. cbn [Z.log2]. destruct p; cbn; rewrite ?Pos2Z.inj_succ; lia.
  - rewrite Pos2Z.inj_succ, IH. cbn [Z.log2]. destruct p; cbn; rewrite ?Pos2Z.inj_succ; lia.
Qed.

Lemma Zdigits2_log2 M : (0 < M)%Z -> Zdigits2 M = Z.succ (Z.log2 M).
Proof. destruct M; try lia. intros _. apply digits2_pos_log2. Qed.

Lemma Zdigits2_bounds M :
  (0 < M)%Z -> (0 < Zdigits2 M /\ 2 ^ (Zdigits2 M - 1) <= M < 2 ^ Zdigits2 M)%Z.
Proof.
  intros H. rewrite (Zdigits2_log2 M H).
  pose proof (Z.log2_spec M H). pose proof (Z.log2_nonneg M).
  replace (Z.succ (Z.log2 M) - 1)%Z with (Z.log2 M) by lia. lia.
Qed.

Lemma shr_1_m mrs : (0 <= shr_m mrs)%Z -> shr_m (shr_1 mrs) = (shr_m mrs / 2)%Z.
Proof.
  destruct mrs as [m r s]. cbn [shr_m]. intros H.
  rewrite <- Z.div2_div.
  destruct m as [|[p|p|]|p]; try lia; reflexivity.
Qed.

Lemma iter_shr_m p : forall mrs,
  (0 <= shr_m mrs)%Z ->
  shr_m (iter_pos shr_1 p mrs) = (shr_m mrs / 2 ^ Zpos p)%Z.
Proof.
  induction p as [p IH|p IH|]; intros mrs H; cbn [iter_pos].
  - assert (H1 : (0 <= shr_m (shr_1 mrs))%Z)
      by (rewrite shr_1_m by assumption; apply Z.div_pos; lia).
    assert (H2 : (0 <= shr_m (iter_pos shr_1 p (shr_1 mrs)))%Z)
      by (rewrite IH by assumption; apply Z.div_pos; lia).
    rewrite IH, IH, shr_1_m by assumption.
    rewrite !Z.div_div by lia.
    replace (Zpos p~1) with (1 + Zpos p + Zpos p)%Z by lia.
    rewrite !Z.pow_add_r, Z.pow_1_r by lia. f_equal. lia.
  - assert (H2 : (0 <= shr_m (iter_pos shr_1 p mrs))%Z)
      by (rewrite IH by assumption; apply Z.div_pos; lia).
    rewrite IH, IH by assumption.
    rewrite Z.div_div by lia.
    replace (Zpos p~0) with (Zpos p + Zpos p)%Z by lia.
    now rewrite Z.pow_add_r by lia.
  - rewrite shr_1_m by assumption. now rewrite Z.pow_1_r.
Qed.

Lemma shr_value mrs e n :
  (0 <= shr_m mrs)%Z ->
  shr_m (fst (shr mrs e n)) = (shr_m mrs / 2 ^ Z.max n 0)%Z /\
  snd (shr mrs e n) = (e + Z.max n 0)%Z.
Proof.
  intros H. destruct n as [|p|p]; cbn [shr fst snd].
  - cbn. rewrite Z.div_1_r. lia.
  - rewrite iter_shr_m by assumption. rewrite Z.max_l by lia. split; reflexivity.
  - rewrite Z.max_r by lia. cbn. rewrite Z.div_1_r. lia.
Qed.

Lemma shr_record_of_loc_m m l : shr_m (shr_record_of_loc m l) = m.
Proof. destruct l as [|[]]; reflexivity. Qed.

Lemma round_nearest_even_ge m l : (m <= round_nearest_even m l)%Z.
Proof. destruct l as [|[]]; cbn; try destruct (Z.even m); lia. Qed.

(** Shifting a mantissa to its place keeps it positive. *)
Lemma shifted_mantissa_pos M e :
  (0 < M)%Z -> (emin <= e)%Z ->
  (0 < M / 2 ^ Z.max (fexp prec emax (Zdigits2 M + e) - e) 0)%Z.
Proof.
  intros HM He.
  destruct (Zdigits2_bounds M HM) as (Hd & Hlo & Hhi).
  unfold fexp, emin, prec, emax in *.
  set (d := Zdigits2 M) in *.
  apply Z.div_str_pos. split; [apply Z.pow_pos_nonneg; lia|].
  eapply Z.le_trans; [|exact Hlo].
  apply Z.pow_le_mono_r; lia.
Qed.

(** What rounding a positive number gives: infinity, or a positive float
    whose exponent and mantissa are at least those of the shifted input. *)
Lemma binary_round_aux_shape M e :
  (0 < M)%Z -> (emin <= e)%Z ->
  binary_round_aux prec emax false M e loc_Exact = S754_infinity false \/
  exists m3 e3,
    binary_round_aux prec emax false M e loc_Exact = S754_finite false m3 e3 /\
    (e + Z.max (fexp prec emax (Zdigits2 M + e) - e) 0 <= e3)%Z /\
    (e3 = e + Z.max (fexp prec emax (Zdigits2 M + e) - e) 0 ->
     M / 2 ^ Z.max (fexp prec emax (Zdigits2 M + e) - e) 0 <= Zpos m3)%Z.
Proof.
  intros HM He.
  pose proof (shifted_mantissa_pos M e HM He) as Hm1.
  set (n := Z.max (fexp prec emax (Zdigits2 M + e) - e) 0) in *.
  assert (Hn : (0 <= n)%Z) by (unfold n; lia).
  unfold binary_round_aux, shr_fexp.
  pose proof (shr_value (shr_record_of_loc M loc_Exact) e
                (fexp prec emax (Zdigits2 M + e) - e)) as H1.
  rewrite shr_record_of_loc_m in H1. specialize (H1 ltac:(lia)). fold n in H1.
  destruct (shr (shr_record_of_loc M loc_Exact) e
                (fexp prec emax (Zdigits2 M + e) - e)) as [mrs1 e1].
  cbn [fst snd] in H1. destruct H1 as [H1 H1e].
  pose proof (round_nearest_even_ge (shr_m mrs1) (loc_of_shr_record mrs1)) as Hr.
  set (m2 := round_nearest_even (shr_m mrs1) (loc_of_shr_record mrs1)) in *.
  assert (Hm2 : (0 < m2)%Z) by lia.
  assert (He1 : (emin <= e1)%Z) by lia.
  pose proof (shifted_mantissa_pos m2 e1 Hm2 He1) as Hm3.
  pose proof (shr_value (shr_record_of_loc m2 loc_Exact) e1
                (fexp prec emax (Zdigits2 m2 + e1) - e1)) as H2.
  rewrite shr_record_of_loc_m in H2. specialize (H2 ltac:(lia)).
  set (n2 := Z.max (fexp prec emax (Zdigits2 m2 + e1) - e1) 0) in *.
  assert (Hn2' : (0 <= n2)%Z) by (unfold n2; lia).
  destruct (shr (shr_record_of_loc m2 loc_Exact) e1
                (fexp prec emax (Zdigits2 m2 + e1) - e1)) as [mrs2 e2].
  cbn [fst snd] in H2. destruct H2 as [H2 H2e].
  destruct (shr_m mrs2) as [|m3|m3] eqn:E3; try lia.
  destruct (e2 <=? emax - prec)%Z; [right|now left].
  exists m3, e2. split; [reflexivity|]. split; [lia|].
  intros Heq. assert (Hn2 : n2 = 0%Z) by lia.
  rewrite Hn2 in H2. cbn in H2. rewrite Z.div_1_r in H2. lia.
Qed.

Lemma iter_xO_value d : forall m, Zpos (Pos.iter xO m d) = (Zpos m * 2 ^ Zpos d)%Z.
Proof.
  induction d as [|d IH] using Pos.peano_ind; intros m.
  - cbn [Pos.iter]. rewrite Z.pow_1_r. lia.
  - rewrite Pos.iter_succ, Pos2Z.inj_xO, IH, Pos2Z.inj_succ, Z.pow_succ_r by lia. lia.
Qed.

Lemma shl_align_value m e e' :
  snd (shl_align m e e') = Z.min e e' /\
  Zpos (fst (shl_align m e e')) = (Zpos m * 2 ^ (e - Z.min e e'))%Z.
Proof.
  unfold shl_align. destruct (e' - e)%Z as [|p|p] eqn:E; cbn [fst snd].
  - rewrite Z.min_l by lia. rewrite Z.sub_diag. cbn. lia.
  - rewrite Z.min_l by lia. rewrite Z.sub_diag. cbn. lia.
  - rewrite Z.min_r by lia. split; [reflexivity|].
    rewrite iter_xO_value. do 2 f_equal. lia.
Qed.

Lemma Zdigits2_shift m k :
  (0 <= k)%Z -> Zdigits2 (Zpos m * 2 ^ k) = (Zdigits2 (Zpos m) + k)%Z.
Proof.
  intros Hk. rewrite !Zdigits2_log2 by (try apply Z.mul_pos_pos; try apply Z.pow_pos_nonneg; lia).
  rewrite Z.log2_mul_pow2 by lia. lia.
Qed.

Lemma Zdigits2_mono a b : (0 < a <= b)%Z -> (Zdigits2 a <= Zdigits2 b)%Z.
Proof.
  intros H. rewrite !Zdigits2_log2 by lia.
  apply Zsucc_le_compat, Z.log2_le_mono. lia.
Qed.

(** A float with a valid representation has its exponent where [fexp]
    puts it. *)
Lemma bounded_exponent m e :
  bounded prec emax m e = true ->
  fexp prec emax (Zpos (digits2_pos m) + e) = e /\ (emin <= e <= emax - prec)%Z.
Proof.
  unfold bounded, canonical_mantissa. intros H.
  apply andb_true_iff in H. destruct H as [H1 H2].
  apply Z.eqb_eq in H1. apply Z.leb_le in H2.
  split; [exact H1|]. split; [|exact H2].
  unfold fexp in H1. lia.
Qed.

(** A number that is not below a float is rounded at an exponent that is
    not below the float's. *)
Lemma fexp_above mx ex M e :
  bounded prec emax mx ex = true ->
  (e <= ex)%Z ->
  (Zpos mx * 2 ^ (ex - e) <= M)%Z ->
  (ex <= fexp prec emax (Zdigits2 M + e))%Z.
Proof.
  intros Hb He HM.
  destruct (bounded_exponent mx ex Hb) as [Hc Hex].
  assert (Hpow : (0 < 2 ^ (ex - e))%Z) by (apply Z.pow_pos_nonneg; lia).
  assert (Hd : (Zdigits2 (Zpos mx) + (ex - e) <= Zdigits2 M)%Z).
  { rewrite <- Zdigits2_shift by lia. apply Zdigits2_mono. nia. }
  cbn [Zdigits2] in Hd. rewrite <- Hc at 1. unfold fexp. lia.
Qed.

(** Rounding a number that is not below a float gives a float, or
    infinity, that is not below it either. *)
Lemma binary_round_aux_above mx ex M e :
  bounded prec emax mx ex = true ->
  (emin <= e <= ex)%Z ->
  (Zpos mx * 2 ^ (ex - e) <= M)%Z ->
  SFleb (S754_finite false mx ex) (binary_round_aux prec emax false M e loc_Exact) = true.
Proof.
  intros Hb He HM.
  pose proof (fexp_above mx ex M e Hb (proj2 He) HM) as Ht.
  assert (Hpow : (0 < 2 ^ (ex - e))%Z) by (apply Z.pow_pos_nonneg; lia).
  assert (HM0 : (0 < M)%Z) by nia.
  destruct (binary_round_aux_shape M e HM0 (proj1 He)) as [-> | (m3 & e3 & -> & H1 & H2)];
    [reflexivity|].
  set (t := fexp prec emax (Zdigits2 M + e)) in *.
  rewrite Z.max_l in H1, H2 by lia.
  unfold SFleb. cbn [SFcompare].
  destruct (Z.compare_spec ex e3) as [Heq|Hlt|Hgt]; [|reflexivity|lia].
  assert (Hte : t = ex) by lia.
  specialize (H2 ltac:(lia)). rewrite Hte in H2.
  assert (Hm : (Zpos mx <= M / 2 ^ (ex - e))%Z)
    by (apply Z.div_le_lower_bound; lia).
  change (Pos.compare_cont Eq mx m3) with (Pos.compare mx m3).
  destruct (Pos.compare_spec mx m3); try reflexivity. lia.
Qed.

(** Adding a number that is not negative to one that is not negative does
    not give less. *)
Lemma SFadd_grows x d :
  valid_binary x = true -> valid_binary d = true ->
  SFleb (S754_zero false) x = true -> SFleb (S754_zero false) d = true ->
  SFleb x (SF64add x d) = true.
Proof.
  intros Hvx Hvd Hx Hd.
  destruct x as [sx|sx| |sx mx ex], d as [sd|sd| |sd my ey];
    try destruct sx; try destruct sd; try discriminate; try reflexivity.
  - cbn. rewrite Z.compare_refl, Pcompare_refl. reflexivity.
  - cbn. rewrite Z.compare_refl, Pcompare_refl. reflexivity.
  - cbn [valid_binary] in Hvx, Hvd.
    destruct (bounded_exponent mx ex Hvx) as [_ Hex].
    destruct (bounded_exponent my ey Hvd) as [_ Hey].
    unfold SF64add, SFadd. cbn [cond_Zopp].
    destruct (shl_align_value mx ex (Z.min ex ey)) as [_ H1].
    destruct (shl_align_value my ey (Z.min ex ey)) as [_ H2].
    rewrite (Z.min_r ex (Z.min ex ey)) in H1 by lia.
    set (ez := Z.min ex ey) in *.
    set (M := Pos.add (fst (shl_align mx ex ez)) (fst (shl_align my ey ez))).
    change (Z.add (Zpos (fst (shl_align mx ex ez))) (Zpos (fst (shl_align my ey ez))))
      with (Zpos M).
    assert (HM : (Zpos mx * 2 ^ (ex - ez) <= Zpos M)%Z) by (unfold M; lia).
    cbn [binary_normalize]. unfold binary_round.
    assert (Ht : (ez <= fexp prec emax (Zpos (digits2_pos M) + ez))%Z).
    { pose proof (fexp_above mx ex (Zpos M) ez Hvx ltac:(unfold ez; lia) HM) as Ht.
      cbn [Zdigits2] in Ht. unfold ez in *. lia. }
    destruct (shl_align_value M ez (fexp prec emax (Zpos (digits2_pos M) + ez))) as [S1 S2].
    rewrite Z.min_l in S1, S2 by lia.
    destruct (shl_align M ez (fexp prec emax (Zpos (digits2_pos M) + ez))) as [mz e1].
    cbn [fst snd] in S1, S2. subst e1.
    rewrite Z.sub_diag, Z.pow_0_r, Z.mul_1_r in S2. rewrite S2.
    apply binary_round_aux_above; [assumption | unfold ez; lia | exact HM].
Qed.

(** *** Order and maximum of binary64 numbers *)

Lemma SFleb_zero_number x : SFleb (S754_zero false) x = true -> x <> S754_nan.
Proof. intros H ->. discriminate. Qed.

Lemma leb_refl (x : float) : (0 <=? x)%float = true -> (x <=? x)%float = true.
Proof.
  rewrite !leb_spec. intros H. unfold SFleb.
  now rewrite SFcompare_refl by (apply SFleb_zero_number; exact H).
Qed.

Lemma leb_trans (x y z : float) :
  (x <=? y)%float = true -> (y <=? z)%float = true -> (x <=? z)%float = true.
Proof. rewrite !leb_spec. apply SFleb_trans. Qed.

(** [x <= x + d] when neither is negative. *)
Lemma add_grows (x d : float) :
  (0 <=? x)%float = true -> (0 <=? d)%float = true -> (x <=? x + d)%float = true.
Proof.
  rewrite !leb_spec, add_spec. intros Hx Hd.
  apply SFadd_grows; try apply Prim2SF_valid; assumption.
Qed.

Lemma SFcompare_number x y :
  x <> S754_nan -> y <> S754_nan -> SFcompare x y <> None.
Proof. destruct x, y; cbn; congruence. Qed.




(** [Math.max] of two numbers is not below the first of them. *)
Lemma Math_max_l (a b : float) :
  (0 <=? a)%float = true -> (0 <=? b)%float = true ->
  (a <=? Math_max a b)%float = true.
Proof.
  intros Ha Hb. pose proof (leb_refl a Ha) as Hr.
  unfold Math_max. rewrite compare_spec.
  pose proof Ha as Ha'. pose proof Hb as Hb'. rewrite leb_spec in Ha', Hb'.
  pose proof (SFcompare_number _ _ (SFleb_zero_number _ Ha') (SFleb_zero_number _ Hb')) as Hn.
  destruct (SFcompare (Prim2SF a) (Prim2SF b)) as [[]|] eqn:E; cbn; try congruence.
  - destruct (PrimFloat.Leibniz.eqb a neg_zero); [|exact Hr].
    rewrite leb_spec. unfold SFleb. now rewrite E.
  - rewrite leb_spec. unfold SFleb. now rewrite E.
Qed.


(** The larger of zero and a number that is not negative is that number:
    the same number, or [+0] for [-0]. *)
Lemma Math_max_zero (x : float) :
  (0 <=? x)%float = true -> (Math_max 0 x =? x)%float = true.
Proof.
  intros H. pose proof H as H'. rewrite leb_spec in H'.
  unfold Math_max. rewrite compare_spec.
  change (Prim2SF 0) with (S754_zero false) in *.
  unfold SFleb in H'.
  destruct (SFcompare (S754_zero false) (Prim2SF x)) as [[]|] eqn:E; try discriminate; cbn.
  - change (PrimFloat.Leibniz.eqb 0 neg_zero) with false. cbn.
    rewrite eqb_spec. unfold SFeqb. change (Prim2SF 0) with (S754_zero false). now rewrite E.
  - rewrite eqb_spec. unfold SFeqb.
    now rewrite SFcompare_refl by (apply SFleb_zero_number; unfold SFleb; now rewrite E).
Qed.

(** *** The sign of a square root *)

Lemma binary_round_aux_sign M e l :
  match binary_round_aux prec emax false M e l with
  | S754_finite s _ _ => s = false
  | _ => True
  end.
Proof.
  unfold binary_round_aux.
  destruct (shr_fexp prec emax M e l) as [mrs1 e1].
  destruct (shr_fexp prec emax _ e1 loc_Exact) as [mrs2 e2].
  destruct (shr_m mrs2); try exact I.
  now destruct (e2 <=? emax - prec)%Z.
Qed.

Lemma exact_sign (x : float) :
  match Prim2SF x with S754_finite s _ _ => s = false | _ => True end ->
  0 <= exact x.
Proof.
  unfold exact. destruct (Prim2SF x) as [s|s| |s m e]; try (intros; apply Qle_refl).
  intros ->. cbn [cond_Zopp].
  apply Qmult_le_0_compat; [discriminate|].
  apply Qpower_0_le. discriminate.
Qed.

Lemma sqrt_exact_nonneg (x : float) : 0 <= exact (PrimFloat.sqrt x).
Proof.
  apply exact_sign. rewrite sqrt_spec. unfold SF64sqrt, SFsqrt.
  destruct (Prim2SF x) as [s|s| |s m e]; try exact I; try (destruct s; exact I).
  destruct s; [exact I|].
  destruct (SFsqrt_core_binary prec emax (Zpos m) e) as [[mz ez] lz].
  apply binary_round_aux_sign.
Qed.

(** *** Zero *)





(** ** The trace only grows *)

Lemma started_app (a b : list Effect) : started (a ++ b) = started a ++ started b.
Proof.
  induction a as [|e a IH]; [reflexivity|].
  destruct e; simpl; rewrite IH; reflexivity.
Qed.

Lemma stopped_app (a b : list Effect) : stopped (a ++ b) = stopped a ++ stopped b.
Proof.
  induction a as [|e a IH]; [reflexivity|].
  destruct e; simpl; rewrite IH; reflexivity.
Qed.

Lemma acknowledgements_app (a b : list Effect) :
  acknowledgements (a ++ b) = acknowledgements a ++ acknowledgements b.
Proof.
  induction a as [|e a IH]; [reflexivity|].
  destruct e; simpl; rewrite IH; try reflexivity.
  now rewrite app_assoc.
Qed.

(** What each kind of call contributes to the observations. *)

Lemma stopped_toolResponse m : stopped (toolResponse m) = [].
Proof. unfold toolResponse. now destruct (toolCall m) as [[|? ?]|]. Qed.

Lemma started_toolResponse m : started (toolResponse m) = [].
Proof. unfold toolResponse. now destruct (toolCall m) as [[|? ?]|]. Qed.

Lemma stopped_starts l : stopped (map SourceStart l) = [].
Proof. induction l; [reflexivity | assumption]. Qed.

Lemma started_starts l : started (map SourceStart l) = l.
Proof. induction l; [reflexivity | cbn; now f_equal]. Qed.

Lemma stopped_stops l : stopped (map (fun src => SourceStop (node src)) l) = map node l.
Proof. induction l; [reflexivity | cbn; now f_equal]. Qed.

Lemma started_stops l : started (map (fun src => SourceStop (node src)) l) = [].
Proof. induction l; [reflexivity | assumption]. Qed.

Lemma acknowledgements_stops l :
  acknowledgements (map (fun src => SourceStop (node src)) l) = [].
Proof. induction l; [reflexivity | assumption]. Qed.

Lemma emitted_extends (st st' : LiveTutor) (x : list Effect) :
  log st' = log st ++ x -> emitted st st' = x.
Proof.
  intros H. unfold emitted. rewrite H.
  rewrite skipn_app, skipn_all, Nat.sub_diag. reflexivity.
Qed.

(** ** Tool calls leave playback alone *)

Lemma sameButTip_refl st : sameButTip st st.
Proof. constructor; reflexivity. Qed.

Lemma sameButTip_trans a b c : sameButTip a b -> sameButTip b c -> sameButTip a c.
Proof.
  intros [] []; constructor; congruence.
Qed.

Lemma showCall_frame call st : sameButTip st (showCall call st).
Proof.
  unfold showCall.
  destruct (call_name call =? "showPronunciationTip")%string; [|apply sameButTip_refl].
  cbn [tipTimeoutRef setCurrentTip].
  destruct (tipTimeoutRef st); constructor; reflexivity.
Qed.

Lemma showCalls_frame calls : forall st,
  sameButTip st (fold_left (fun st call => showCall call st) calls st).
Proof.
  induction calls as [|c calls IH]; intros st; simpl.
  - apply sameButTip_refl.
  - eapply sameButTip_trans; [apply showCall_frame | apply IH].
Qed.

(** ** The blocks before the audio block *)

Lemma onmessage_blocks now m st :
  onmessage now m st =
  match handleAudio now m (beforeAudio m st) with
  | Return st' => st'
  | Continue st' => handleInterrupted m st'
  end.
Proof. reflexivity. Qed.

Lemma beforeAudio_blocks m st :
  beforeAudio m st = handleToolCall m (handleTranscription m st).
Proof. reflexivity. Qed.

Lemma handleTranscription_frame m st : sameButTranscripts st (handleTranscription m st).
Proof. transcription_cases m; constructor; reflexivity. Qed.

Lemma handleToolCall_frame m st : sameButTip st (setLog (log st) (handleToolCall m st)).
Proof.
  unfold handleToolCall.
  destruct (toolCall m) as [[|c cs]|]; try (constructor; reflexivity).
  remember (c :: cs) as calls eqn:E. clear E.
  destruct (showCalls_frame calls st); constructor; cbn; first [assumption | reflexivity].
Qed.

Lemma handleToolCall_log m st :
  log (handleToolCall m st) = log st ++ toolResponse m.
Proof.
  unfold handleToolCall, toolResponse.
  destruct (toolCall m) as [[|c cs]|]; try (now rewrite app_nil_r).
  remember (c :: cs) as calls eqn:E. clear E.
  cbn. now rewrite (sbt_log _ _ (showCalls_frame calls st)).
Qed.

(** The blocks before the audio block leave playback alone and add only the
    tool response to the trace. *)
Lemma beforeAudio_playback m st :
  outputContextRef (beforeAudio m st) = outputContextRef st /\
  nextStartTimeRef (beforeAudio m st) = nextStartTimeRef st /\
  audioSourcesRef (beforeAudio m st) = audioSourcesRef st /\
  aiSpeaking (beforeAudio m st) = aiSpeaking st /\
  log (beforeAudio m st) = log st ++ toolResponse m.
Proof.
  rewrite beforeAudio_blocks.
  destruct (handleTranscription_frame m st).
  destruct (handleToolCall_frame m (handleTranscription m st)).
  cbn in *. rewrite handleToolCall_log.
  repeat split; congruence.
Qed.

(** ** The audio and interruption blocks *)

Lemma afterTools_frame now m st :
  sameButPlayback st
    match handleAudio now m st with
    | Return st' => st'
    | Continue st' => handleInterrupted m st'
    end.
Proof. audio_cases m st; constructor; reflexivity. Qed.

(** The trace of one message: the tool response, then source starts and
    stops, which acknowledge nothing. *)
Lemma onmessage_log now m st :
  exists x,
    log (onmessage now m st) = log st ++ toolResponse m ++ x /\
    acknowledgements x = [].
Proof.
  rewrite onmessage_blocks.
  destruct (beforeAudio_playback m st) as (_ & _ & _ & _ & Hl).
  audio_cases m (beforeAudio m st); cbn; rewrite Hl, <- ?app_assoc;
    eexists; (split; [try reflexivity; now rewrite app_nil_r|]);
    cbn; rewrite ?acknowledgements_app, ?acknowledgements_stops; reflexivity.
Qed.

Lemma acknowledgements_toolResponse m :
  acknowledgements (toolResponse m) = map acknowledge (invocations m).
Proof.
  unfold toolResponse, invocations.
  destruct (toolCall m) as [[|c cs]|]; cbn; rewrite ?app_nil_r; reflexivity.
Qed.

Lemma acknowledgements_onmessage now m st :
  acknowledgements (emitted st (onmessage now m st)) = map acknowledge (invocations m).
Proof.
  destruct (onmessage_log now m st) as (x & Hl & Hx).
  rewrite (emitted_extends _ _ _ Hl), acknowledgements_app, Hx, app_nil_r.
  apply acknowledgements_toolResponse.
Qed.

(** ** Playback scheduling *)

(** One message, the output context present and no interruption: the audio
    block starts at most one source, at [Math.max(nextStartTimeRef, currentTime)]. *)
Lemma onmessage_enqueue now m st :
  outputContextRef st <> None ->
  interrupted m = false ->
  outputContextRef (onmessage now m st) = outputContextRef st /\
  match audioOf (now, m) with
  | Some (clock, d) =>
      nextStartTimeRef (onmessage now m st) =
        (Math_max (nextStartTimeRef st) clock + d)%float /\
      exists src,
        log (onmessage now m st) = log st ++ toolResponse m ++ [SourceStart src] /\
        timing src = (Math_max (nextStartTimeRef st) clock, d)
  | None =>
      nextStartTimeRef (onmessage now m st) = nextStartTimeRef st /\
      log (onmessage now m st) = log st ++ toolResponse m
  end.
Proof.
  intros Hctx Hint.
  rewrite onmessage_blocks.
  destruct (beforeAudio_playback m st) as (Hc & Hn & _ & _ & Hl).
  unfold handleAudio, handleInterrupted, audioPrepare, audioCommit, audioOf.
  rewrite Hint. cbn [snd fst].
  destruct (inlineData m) as [chunk|]; [destruct (data chunk =? "")%string|].
  - repeat split; assumption.
  - cbn [outputContextRef setAiSpeaking].
    destruct (outputContextRef (beforeAudio m st)) as [c|] eqn:E; [|congruence].
    cbn [outputContextRef setAiSpeaking setNextStartTimeRef]. rewrite E.
    cbn [outputContextRef nextStartTimeRef log setAudioSourcesRef setNextStartTimeRef emit
         setLog allocate setFresh setAiSpeaking].
    rewrite Hn, Hl.
    split; [congruence|]. split; [reflexivity|].
    eexists. split; [now rewrite <- app_assoc | reflexivity].
  - repeat split; assumption.
Qed.

Lemma receive_cons nm inbound st :
  receive (nm :: inbound) st = receive inbound (onmessage (fst nm) (snd nm) st).
Proof. reflexivity. Qed.








(** ** Tool dispatch *)

(** C3.  Whatever the tool names and arguments of the invocations a message
    delivers, the acknowledgements sent while handling it are one per
    invocation, in order, each carrying the invocation's id and name. *)
Theorem every_invocation_acknowledged_once
  (now : float) (m : LiveServerMessage) (st : LiveTutor) :
  acknowledgements (emitted st (onmessage now m st)) = map acknowledge (invocations m) /\
  Forall2 answers (invocations m) (acknowledgements (emitted st (onmessage now m st))).
Proof.
  rewrite acknowledgements_onmessage. split; [reflexivity|].
  induction (invocations m) as [|c cs IH]; constructor; [split; reflexivity | exact IH].
Qed.



(** Calls of unknown tools show nothing. *)
Lemma shownTip_unknown calls current :
  Forall (fun c => call_name c <> "showPronunciationTip") calls ->
  shownTip calls current = current.
Proof.
  induction 1 as [|c calls Hc _ IH]; [reflexivity|].
  cbn [shownTip fold_left]. apply String.eqb_neq in Hc. rewrite Hc. exact IH.
Qed.




(** The specification's scenario: the tip is surfaced with its exact fields
    and the response carries the id, the name and "OK". *)
Example think_tip_scenario :
  currentTip (onmessage 0 (toolMessage [thinkCall]) activeSession) =
  Some {| word := Some "think"; tip := Some "tongue between teeth"; phonetic := None |} /\
  emitted activeSession (onmessage 0 (toolMessage [thinkCall]) activeSession) =
  [ SendToolResponse
      [ {| response_id := "t1"; response_name := "showPronunciationTip";
           response_result := "OK" |} ] ].
Proof. split; reflexivity. Qed.

(** ** Interruption *)

(** The interruption block by itself, in any state. *)
Lemma handleInterrupted_resets m st :
  interrupted m = true ->
  audioSourcesRef (handleInterrupted m st) = [] /\
  nextStartTimeRef (handleInterrupted m st) = 0%float /\
  aiSpeaking (handleInterrupted m st) = false /\
  aiTranscript (handleInterrupted m st) = "" /\
  log (handleInterrupted m st) =
    log st ++ map (fun src => SourceStop (node src)) (audioSourcesRef st).
Proof.
  intros H. unfold handleInterrupted. rewrite H. repeat split; reflexivity.
Qed.

(** Unless the audio block returns early, it hands over to the interruption
    block with the sources it added in the set and their starts in the trace. *)
Lemma handleAudio_continues now m st :
  dropsAudio m st = false ->
  exists st1 news,
    handleAudio now m (beforeAudio m st) = Continue st1 /\
    audioSourcesRef st1 = audioSourcesRef st ++ news /\
    log st1 = log st ++ toolResponse m ++ map SourceStart news.
Proof.
  intros Hd.
  destruct (beforeAudio_playback m st) as (Hc & _ & Hs & _ & Hl).
  unfold handleAudio, audioPrepare, audioCommit, dropsAudio in *.
  destruct (inlineData m) as [chunk|]; [destruct (data chunk =? "")%string|].
  - exists (beforeAudio m st), []. now rewrite !app_nil_r.
  - cbn [outputContextRef setAiSpeaking].
    destruct (outputContextRef (beforeAudio m st)) as [c|] eqn:E;
      [|rewrite <- Hc in Hd; discriminate].
    cbn [outputContextRef setAiSpeaking setNextStartTimeRef]. rewrite E.
    eexists _, [_]. split; [reflexivity|]. cbn. rewrite Hs, Hl.
    split; [reflexivity | now rewrite <- app_assoc].
  - exists (beforeAudio m st), []. now rewrite !app_nil_r.
Qed.

(** An interruption that reaches its block: every source of the set, and
    the one the same message may have started, is stopped; the set is
    emptied, the cursor is back at zero, the tutor is no longer speaking and
    the remote transcript is empty. *)
Lemma interruption_resets_playback now m st :
  interrupted m = true ->
  dropsAudio m st = false ->
  audioSourcesRef (onmessage now m st) = [] /\
  nextStartTimeRef (onmessage now m st) = 0%float /\
  aiSpeaking (onmessage now m st) = false /\
  aiTranscript (onmessage now m st) = "" /\
  stopped (emitted st (onmessage now m st)) =
    map node (audioSourcesRef st ++ started (emitted st (onmessage now m st))).
Proof.
  intros Hi Hd.
  destruct (handleAudio_continues now m st Hd) as (st1 & news & Ha & Hs & Hl).
  rewrite onmessage_blocks, Ha.
  destruct (handleInterrupted_resets m st1 Hi) as (R1 & R2 & R3 & R4 & R5).
  repeat split; try assumption.
  rewrite Hs, Hl, <- !app_assoc in R5.
  rewrite (emitted_extends _ _ _ R5).
  rewrite !stopped_app, !started_app, stopped_toolResponse, started_toolResponse,
    stopped_starts, started_starts, stopped_stops, started_stops.
  now rewrite app_nil_r.
Qed.

(** When the last source ends, the tutor has finished speaking. *)
Example last_source_ends :
  audioSourcesRef (onended 9 talking) = [] /\ aiSpeaking (onended 9 talking) = false.
Proof. split; reflexivity. Qed.

(** C2 at its failing input.  The user ends the session while the tutor
    speaks (so [outputContextRef.current] is null), and before the channel
    has closed a message arrives that carries audio and the interrupted
    flag.  The audio block returns early: nothing is stopped, the source set
    and the cursor stay as they were, the remote transcript is kept and the
    tutor is shown as speaking.  The same message handled while the output
    context exists does all the claim says. *)
Theorem interruption_skipped_after_teardown :
  dropsAudio interruptedWithAudio (stopSession talking) = true /\
  emitted (stopSession talking) (onmessage 1 interruptedWithAudio (stopSession talking)) = [] /\
  audioSourcesRef (onmessage 1 interruptedWithAudio (stopSession talking)) =
    [ {| node := 9; startTime := 0; bufferDuration := 2 |} ] /\
  nextStartTimeRef (onmessage 1 interruptedWithAudio (stopSession talking)) = 2%float /\
  aiSpeaking (onmessage 1 interruptedWithAudio (stopSession talking)) = true /\
  aiTranscript (onmessage 1 interruptedWithAudio (stopSession talking)) = "Try: think." /\
  audioSourcesRef (onmessage 1 interruptedWithAudio talking) = [] /\
  aiSpeaking (onmessage 1 interruptedWithAudio talking) = false.
Proof. repeat split; reflexivity. Qed.

(** ** Transcripts *)

Lemma append_empty (s : string) : (s ++ "")%string = s.
Proof. induction s as [|a s IH]; [reflexivity | cbn; now rewrite IH]. Qed.

Lemma handleOutputTranscription_appends m st :
  aiTranscript (handleOutputTranscription m st) = (aiTranscript st ++ delta m)%string.
Proof.
  unfold handleOutputTranscription, delta.
  destruct (outputTranscription m) as [text|]; [|now rewrite append_empty].
  destruct (text =? "")%string eqn:E; [|reflexivity].
  apply String.eqb_eq in E. subst. now rewrite append_empty.
Qed.

Lemma handleTranscription_user m st :
  userTranscript (handleTranscription m st) =
  match inputTranscription m with
  | Some text => if (text =? "")%string then userTranscript st else text
  | None => userTranscript st
  end.
Proof. transcription_cases m; reflexivity. Qed.

Lemma handleTranscription_remote m st :
  aiTranscript (handleTranscription m st) =
  if turnComplete m then "" else (aiTranscript st ++ delta m)%string.
Proof.
  unfold handleTranscription, handleTurnComplete.
  destruct (turnComplete m); [reflexivity|].
  rewrite handleOutputTranscription_appends.
  unfold handleInputTranscription.
  destruct (inputTranscription m) as [t|]; [destruct (t =? "")%string|]; reflexivity.
Qed.

(** C8, as the code has it.  A user fragment that is not empty replaces the
    whole user transcript, and an empty or absent one leaves it as it is; the
    output-transcription block appends the remote fragment to the remote
    transcript; and after the whole message the remote transcript is empty
    when the message signals turn-complete (or an interruption that is
    handled), and is the previous transcript followed by the fragment
    otherwise. *)
Theorem transcripts_follow_events (now : float) (m : LiveServerMessage) (st : LiveTutor) :
  userTranscript (onmessage now m st) =
    match inputTranscription m with
    | Some text => if (text =? "")%string then userTranscript st else text
    | None => userTranscript st
    end /\
  aiTranscript (handleOutputTranscription m st) = (aiTranscript st ++ delta m)%string /\
  aiTranscript (onmessage now m st) =
    if turnComplete m then ""
    else if interrupted m && negb (dropsAudio m st) then ""
    else (aiTranscript st ++ delta m)%string.
Proof.
  split; [|split; [apply handleOutputTranscription_appends|]].
  - rewrite onmessage_blocks.
    rewrite (sbp_userTranscript _ _ (afterTools_frame now m (beforeAudio m st))).
    rewrite beforeAudio_blocks.
    pose proof (sbt_userTranscript _ _ (handleToolCall_frame m (handleTranscription m st)))
      as H.
    cbn in H. rewrite H. apply handleTranscription_user.
  - rewrite onmessage_blocks.
    destruct (beforeAudio_playback m st) as (Hc & _ & _ & _ & _).
    assert (Ht : aiTranscript (beforeAudio m st) =
                 if turnComplete m then "" else (aiTranscript st ++ delta m)%string).
    { rewrite beforeAudio_blocks.
      pose proof (sbt_aiTranscript _ _ (handleToolCall_frame m (handleTranscription m st)))
        as H.
      cbn in H. rewrite H. apply handleTranscription_remote. }
    unfold dropsAudio. rewrite <- Hc.
    audio_cases m (beforeAudio m st); cbn; rewrite ?Ht;
      destruct (turnComplete m); reflexivity.
Qed.

(** C8, as stated, fails: a user transcription event with an empty text does
    not replace the user transcript. *)
Lemma empty_user_fragment_ignored :
  inputTranscription emptyUserFragment = Some "" /\
  userTranscript talking = "I sink so" /\
  userTranscript (onmessage 5 emptyUserFragment talking) = "I sink so".
Proof. repeat split; reflexivity. Qed.

(** ** Teardown *)

Lemma filter_twice {A} (f : A -> bool) (l : list A) : filter f (filter f l) = filter f l.
Proof.
  induction l as [|a l IH]; [reflexivity|].
  cbn. destruct (f a) eqn:E; cbn; rewrite ?E, IH; reflexivity.
Qed.

(** [stopSession] in one record: what it sets, what it keeps. *)
Lemma stopSession_record st :
  stopSession st =
  {| isConnected := false; status := idle; errorMessage := errorMessage st;
     volume := volume st; aiSpeaking := false; userTranscript := userTranscript st;
     aiTranscript := aiTranscript st; currentTip := currentTip st;
     inputContextRef := None; outputContextRef := None; streamRef := None;
     processorRef := None; sourceRef := None; sessionPromiseRef := None;
     nextStartTimeRef := nextStartTimeRef st; audioSourcesRef := audioSourcesRef st;
     tipTimeoutRef := tipTimeoutRef st;
     timers := match tipTimeoutRef st with
               | Some h => filter (fun t => negb (Pos.eqb t h)) (timers st)
               | None => timers st
               end;
     fresh := fresh st; log := log st ++ releases st |}.
Proof.
  destruct st as [? ? ? ? ? ? ? ? ic oc sr pr so se ? ? tt ? ? lg].
  unfold stopSession, releases, owed; cbn.
  destruct tt, sr, so, pr, ic, oc, se;
    cbv [setIsConnected setStatus setAiSpeaking setStreamRef setSourceRef setProcessorRef
         setInputContextRef setOutputContextRef setSessionPromiseRef setTimers setLog
         emit clearTimeout
         isConnected status errorMessage volume aiSpeaking userTranscript aiTranscript
         currentTip inputContextRef outputContextRef streamRef processorRef sourceRef
         sessionPromiseRef nextStartTimeRef audioSourcesRef tipTimeoutRef timers fresh log];
    rewrite <- ?app_assoc; cbn [app]; rewrite ?app_nil_r; reflexivity.
Qed.

(** The trace of a teardown is what the refs owed. *)
Lemma stopSession_log st : log (stopSession st) = log st ++ releases st.
Proof. now rewrite stopSession_record. Qed.

Lemma stopSession_released st : released (stopSession st).
Proof. rewrite stopSession_record. repeat split; reflexivity. Qed.

(** What a teardown sets, and what it leaves as it is. *)
Lemma stopSession_view st :
  status (stopSession st) = idle /\
  isConnected (stopSession st) = false /\
  aiSpeaking (stopSession st) = false /\
  errorMessage (stopSession st) = errorMessage st /\
  userTranscript (stopSession st) = userTranscript st /\
  aiTranscript (stopSession st) = aiTranscript st /\
  currentTip (stopSession st) = currentTip st /\
  audioSourcesRef (stopSession st) = audioSourcesRef st /\
  nextStartTimeRef (stopSession st) = nextStartTimeRef st.
Proof. rewrite stopSession_record. repeat split; reflexivity. Qed.

(** A ref that holds a handle gets its release call. *)
Lemma stopSession_stops_microphone st s :
  streamRef st = Some s -> In (TrackStop s) (emitted st (stopSession st)).
Proof.
  intros H. rewrite (emitted_extends _ _ _ (stopSession_log st)).
  unfold releases. rewrite H. now left.
Qed.

Lemma stopSession_closes_channel st s :
  sessionPromiseRef st = Some s -> In (SessionClose s) (emitted st (stopSession st)).
Proof.
  intros H. rewrite (emitted_extends _ _ _ (stopSession_log st)).
  unfold releases. rewrite H, !in_app_iff. do 5 right. now left.
Qed.

Lemma stopSession_closes_output st c :
  outputContextRef st = Some c -> In (ContextClose c) (emitted st (stopSession st)).
Proof.
  intros H. rewrite (emitted_extends _ _ _ (stopSession_log st)).
  unfold releases. rewrite H, !in_app_iff. do 4 right. left. now left.
Qed.

(** C6, as the code has it.  After [stopSession], from any state: no ref
    holds a handle, and the calls made are those owed for the handles held
    before (microphone tracks stopped, capture nodes disconnected, both audio
    contexts closed, which ends playback, and the channel closed); the status
    is idle and the connection and speaking flags are off.  The transcripts
    and the tip on display are as they were, and so are the error message,
    the source set and the scheduling cursor. *)
Theorem stopSession_releases_and_keeps_text (st : LiveTutor) :
  released (stopSession st) /\
  emitted st (stopSession st) = releases st /\
  status (stopSession st) = idle /\
  isConnected (stopSession st) = false /\
  aiSpeaking (stopSession st) = false /\
  errorMessage (stopSession st) = errorMessage st /\
  userTranscript (stopSession st) = userTranscript st /\
  aiTranscript (stopSession st) = aiTranscript st /\
  currentTip (stopSession st) = currentTip st /\
  audioSourcesRef (stopSession st) = audioSourcesRef st /\
  nextStartTimeRef (stopSession st) = nextStartTimeRef st.
Proof.
  split; [apply stopSession_released|].
  split; [apply emitted_extends, stopSession_log|].
  apply stopSession_view.
Qed.

(** C6, as stated, fails: stopping the session while the tutor speaks leaves
    both transcripts and the tip on display; the tip's dismissal timeout is
    cancelled, so the tip stays. *)
Lemma stop_keeps_transcripts_and_tip :
  userTranscript (stopSession talking) = "I sink so" /\
  aiTranscript (stopSession talking) = "Try: think." /\
  currentTip (stopSession talking) =
    Some {| word := Some "think"; tip := Some "tongue between teeth"; phonetic := None |} /\
  timers talking = [8%positive] /\
  timers (stopSession talking) = [].
Proof. repeat split; reflexivity. Qed.

(** Two teardowns in a row, in any state (the ones in which nothing was
    ever acquired among them): the first makes the calls owed for the handles
    held and leaves the status idle and every ref null; the second makes no
    call and changes nothing. *)
Lemma stopSession_twice (st : LiveTutor) :
  emitted st (stopSession st) = releases st /\
  status (stopSession st) = idle /\
  released (stopSession st) /\
  stopSession (stopSession st) = stopSession st /\
  emitted (stopSession st) (stopSession (stopSession st)) = [].
Proof.
  assert (H : stopSession (stopSession st) = stopSession st).
  { rewrite (stopSession_record (stopSession st)), (stopSession_record st).
    cbn [isConnected status errorMessage volume aiSpeaking userTranscript aiTranscript
         currentTip inputContextRef outputContextRef streamRef processorRef sourceRef
         sessionPromiseRef nextStartTimeRef audioSourcesRef tipTimeoutRef timers fresh
         log releases owed app].
    rewrite app_nil_r. f_equal.
    destruct (tipTimeoutRef st); [apply filter_twice | reflexivity]. }
  split; [apply emitted_extends, stopSession_log|].
  split; [apply stopSession_view|].
  split; [apply stopSession_released|].
  split; [exact H|].
  rewrite H. unfold emitted. apply skipn_all.
Qed.

(** Stopping before anything was acquired, or while [getUserMedia] is still
    pending, asks nothing of the microphone. *)
Example stop_before_acquisition :
  stopSession initial = initial /\
  emitted (startSession_begin initial) (stopSession (startSession_begin initial)) =
    [ContextClose 1; ContextClose 2] /\
  status (stopSession (startSession_begin initial)) = idle.
Proof. repeat split; reflexivity. Qed.

(** C7 at its failing input.  The session is stopped while [startSession]
    still awaits [getUserMedia].  The teardown closes the two audio contexts
    and leaves the status idle and every ref null; but when [getUserMedia]
    then resolves, the continuation of [startSession] stores the stream in
    [streamRef], finds the output context gone and ends in its [catch]
    block: the status is error, not idle, a device handle is held again, and
    no call has stopped its tracks.  The page offers Start, whose
    [getUserMedia] will put another stream in the ref. *)
Theorem stop_during_acquisition_leaks_stream (st : LiveTutor) :
  status (stopSession (startSession_begin st)) = idle /\
  released (stopSession (startSession_begin st)) /\
  status (startSession_resume true (stopSession (startSession_begin st))) = error /\
  streamRef (startSession_resume true (stopSession (startSession_begin st))) =
    Some (fresh (stopSession (startSession_begin st))) /\
  ~ released (startSession_resume true (stopSession (startSession_begin st))) /\
  emitted (stopSession (startSession_begin st))
          (startSession_resume true (stopSession (startSession_begin st))) = [] /\
  control (startSession_resume true (stopSession (startSession_begin st))) =
    StartConversation false.
Proof.
  split; [apply stopSession_view|].
  split; [apply stopSession_released|].
  rewrite stopSession_record.
  repeat split; try reflexivity.
  - intros (H & _). discriminate H.
  - unfold emitted. apply skipn_all.
Qed.

(** The same at the first start of the component: the stream is object 3,
    created after the two contexts that the teardown closed. *)
Example acquisition_resolving_after_stop :
  status (startSession_resume true (stopSession (startSession_begin initial))) = error /\
  streamRef (startSession_resume true (stopSession (startSession_begin initial))) =
    Some 3%positive /\
  errorMessage (startSession_resume true (stopSession (startSession_begin initial))) =
    Some "Could not access microphone or connect." /\
  log (startSession_resume true (stopSession (startSession_begin initial))) =
    [ContextClose 1; ContextClose 2].
Proof. repeat split; reflexivity. Qed.

(** ** Transport failure *)

(** C5, as the code has it.  On a transport error the message is set and
    the session is torn down through [stopSession]: the calls owed for the
    handles held are made and no ref holds one afterwards; the status ends
    idle (not error), the error message is the connection error, and the
    Start button is available again. *)
Theorem transport_error_tears_down_to_idle (st : LiveTutor) :
  status (onerror st) = idle /\
  errorMessage (onerror st) = Some "Connection error. Please try again." /\
  isConnected (onerror st) = false /\
  canStart (onerror st) = true /\
  released (onerror st) /\
  emitted st (onerror st) = releases st.
Proof.
  unfold onerror.
  set (st1 := setErrorMessage (Some "Connection error. Please try again.") st).
  destruct (stopSession_view st1) as (Hs & Hc & _ & He & _).
  repeat split; try assumption; try apply stopSession_released.
  - unfold canStart. now rewrite Hs, Hc.
  - apply emitted_extends. exact (stopSession_log st1).
Qed.

(** C5, as stated, fails: after a transport error in an active session the
    status is idle, not error. *)
Lemma transport_error_status_is_idle :
  status activeSession = active /\
  status (onerror activeSession) = idle /\
  status (onerror activeSession) <> error.
Proof. split; [reflexivity|]. split; [reflexivity | discriminate]. Qed.

(** ** Starting *)

(** C10.  While [startSession] awaits [getUserMedia], the first thing it
    asks for, the view is already reset: the status is connecting and the
    error message, both transcripts and the tip are cleared, whereas the
    stream ref, the channel ref and the trace are still as they were.  When
    the function has run, whether the microphone was granted or not, the
    transcripts and the tip are empty, and the error message is empty when it
    was granted and the microphone error, not an earlier message, when it was
    refused.  [stopSession] had left the transcripts and the tip as they
    were. *)
Theorem startSession_resets_view (st : LiveTutor) (granted : bool) :
  (status (startSession_begin st) = connecting /\
   errorMessage (startSession_begin st) = None /\
   userTranscript (startSession_begin st) = "" /\
   aiTranscript (startSession_begin st) = "" /\
   currentTip (startSession_begin st) = None) /\
  (streamRef (startSession_begin st) = streamRef st /\
   sessionPromiseRef (startSession_begin st) = sessionPromiseRef st /\
   log (startSession_begin st) = log st) /\
  (userTranscript (startSession granted st) = "" /\
   aiTranscript (startSession granted st) = "" /\
   currentTip (startSession granted st) = None /\
   errorMessage (startSession granted st) =
     if granted then None else Some "Could not access microphone or connect.") /\
  (userTranscript (stopSession st) = userTranscript st /\
   aiTranscript (stopSession st) = aiTranscript st /\
   currentTip (stopSession st) = currentTip st).
Proof.
  split; [repeat split; reflexivity|].
  split; [repeat split; reflexivity|].
  split.
  - unfold startSession, startSession_resume, startSession_begin, startSession_catch.
    destruct granted; repeat split; reflexivity.
  - destruct (stopSession_view st) as (_ & _ & _ & _ & Hu & Ha & Ht & _).
    repeat split; assumption.
Qed.

(** A session that is stopped and started again begins with empty
    transcripts and no tip. *)
Example restart_begins_empty :
  userTranscript (startSession true (stopSession talking)) = "" /\
  aiTranscript (startSession true (stopSession talking)) = "" /\
  currentTip (startSession true (stopSession talking)) = None /\
  status (startSession true (stopSession talking)) = connecting.
Proof. repeat split; reflexivity. Qed.

(** ** Capture volume *)








(** The loop on other windows: 4096 silent samples have volume [+0], also
    when some are [-0], and a window alternating between 0.5 and -0.5 has
    volume 0.5. *)
Example silent_window_binary64 :
  rms (repeat 0%float 4096) = 0%float /\
  rms (repeat neg_zero 4096) = 0%float /\
  rms [0.5; -0.5; 0.5; -0.5]%float = 0.5%float.
Proof. repeat split; vm_compute; reflexivity. Qed.

(** The specification's scenario: three frames of silence before any remote
    audio; the volume is 0 after each and no source has been started. *)
Example three_silent_frames :
  let silence := repeat 0%float 8 in
  let st1 := onaudioprocess silence activeSession in
  let st2 := onaudioprocess silence st1 in
  let st3 := onaudioprocess silence st2 in
  volume st1 = 0%float /\ volume st2 = 0%float /\ volume st3 = 0%float /\
  started (log st3) = [] /\ audioSourcesRef st3 = [].
Proof. repeat split; reflexivity. Qed.

(** *** Chunks whose handling overlaps *)

Lemma StronglySorted_snoc {A} (R : A -> A -> Prop) (l : list A) (x : A) :
  StronglySorted R l -> Forall (fun a => R a x) l -> StronglySorted R (l ++ [x]).
Proof.
  induction 1 as [|a l Hl IH Ha]; intros Hx; cbn.
  - repeat constructor.
  - inversion Hx; subst. constructor; [now apply IH|].
    apply Forall_app. split; [assumption | now constructor].
Qed.

Lemma playbackStep_ordered st ev :
  wellTimed ev -> scheduleOrdered st -> scheduleOrdered (playbackStep st ev).
Proof.
  intros Hev (Hn & Hs & Hc). destruct ev as [now|d]; cbn [playbackStep wellTimed] in *.
  - unfold audioPrepare. cbn [outputContextRef setAiSpeaking].
    pose proof (Math_max_l _ _ Hn Hev) as Hle.
    destruct (outputContextRef st); repeat split; cbn; try assumption.
    + exact (leb_trans _ _ _ Hn Hle).
    + eapply Forall_impl; [|exact Hc].
      intros s Hs0. cbn beta in Hs0. exact (leb_trans _ _ _ Hs0 Hle).
  - unfold audioCommit.
    pose proof (add_grows _ _ Hn Hev) as Hg.
    destruct (outputContextRef st); [|repeat split; assumption].
    repeat split; cbn; rewrite ?started_app; cbn [started].
    + exact (leb_trans _ _ _ Hn Hg).
    + apply StronglySorted_snoc; [exact Hs|]. exact Hc.
    + apply Forall_app. split.
      * eapply Forall_impl; [|exact Hc]. intros s Hs0. cbn beta in Hs0.
        exact (leb_trans _ _ _ Hs0 Hg).
      * repeat constructor. apply leb_refl. exact (leb_trans _ _ _ Hn Hg).
Qed.

(** However the two halves of the audio block of several chunks interleave,
    the sources stay in order: none starts before an earlier one's end. *)
Lemma playback_ordered evs : forall st,
  Forall wellTimed evs -> scheduleOrdered st -> scheduleOrdered (playback evs st).
Proof.
  induction evs as [|ev evs IH]; intros st Hev Hst; [exact Hst|].
  inversion Hev; subst. apply IH; [assumption|].
  now apply playbackStep_ordered.
Qed.

(** Two chunks arrive before either is decoded, and the second is decoded
    first: it plays first, and the other follows it. *)
Example overlapping_decodes :
  map timing (started (log (playback [Prepared 0; Prepared 0.25; Decoded 1; Decoded 0.5]
                              activeSession))) =
  [(0.25, 1); (1.25, 0.5)]%float.
Proof. reflexivity. Qed.

(** The scheduling cursor is a number that is not negative in every state
    the component reaches, as long as clock values and durations are. *)
Lemma onmessage_cursor now m st :
  wellClocked (MessageReceived now m) ->
  notNegative (nextStartTimeRef st) ->
  notNegative (nextStartTimeRef (onmessage now m st)).
Proof.
  intros [Hnow Hd] Hc. rewrite onmessage_blocks.
  destruct (beforeAudio_playback m st) as (_ & Hn & _).
  rewrite <- Hn in Hc.
  pose proof (Math_max_l _ _ Hc Hnow) as Hle.
  audio_cases m (beforeAudio m st);
    cbn [nextStartTimeRef setAiSpeaking setAiTranscript setNextStartTimeRef
         setAudioSourcesRef setLog emit allocate setFresh];
    try exact Hc; try reflexivity.
  exact (leb_trans _ _ _ (leb_trans _ _ _ Hc Hle)
           (add_grows _ _ (leb_trans _ _ _ Hc Hle) Hd)).
Qed.

Lemma cursor_notNegative evs : forall st,
  Forall wellClocked evs ->
  notNegative (nextStartTimeRef st) ->
  notNegative (nextStartTimeRef (run evs st)).
Proof.
  unfold run.
  induction evs as [|ev evs IH]; intros st Hev Hc; [exact Hc|].
  inversion Hev as [|? ? Hev0 Hevs]; subst.
  cbn [fold_left]. apply IH; [exact Hevs|].
  destruct ev; cbn [handle].
  - exact Hc.
  - unfold startSession_resume, startSession_catch.
    destruct granted; cbn [outputContextRef allocate setStreamRef setFresh];
      try destruct (outputContextRef st); exact Hc.
  - unfold onopen. cbn [inputContextRef setIsConnected setStatus].
    destruct (inputContextRef st); exact Hc.
  - now apply onmessage_cursor.
  - unfold onended. cbn [audioSourcesRef setAudioSourcesRef].
    destruct (filter _ (audioSourcesRef st)); exact Hc.
  - exact Hc.
  - unfold tipTimeoutFired. destruct (existsb _ _); exact Hc.
  - exact Hc.
  - now rewrite stopSession_record.
  - unfold onclose. now rewrite stopSession_record.
  - unfold onerror. now rewrite stopSession_record.
Qed.


Example three_chunks_schedule :
  map timing (scheduledBy threeChunks activeSession) = [(0, 0.5); (0.5, 0.5); (3, 1)]%float.
Proof. reflexivity. Qed.

(** * Further properties *)

(** ** A session's device handles *)

Lemma releases_devices st st' : devices st' = devices st -> releases st' = releases st.
Proof.
  unfold devices, releases. intros H. injection H as -> -> -> -> -> ->. reflexivity.
Qed.

Lemma showCall_devices call st :
  devices (showCall call st) = devices st /\ (fresh st <= fresh (showCall call st))%positive.
Proof.
  unfold showCall, devices.
  destruct (call_name call =? "showPronunciationTip")%string; [|split; [reflexivity | lia]].
  cbn [tipTimeoutRef setCurrentTip].
  destruct (tipTimeoutRef st); cbn; (split; [reflexivity | lia]).
Qed.

Lemma showCalls_devices calls : forall st,
  devices (fold_left (fun st call => showCall call st) calls st) = devices st /\
  (fresh st <= fresh (fold_left (fun st call => showCall call st) calls st))%positive.
Proof.
  induction calls as [|c calls IH]; intros st; cbn [fold_left].
  - split; [reflexivity | lia].
  - destruct (IH (showCall c st)) as [H1 H2].
    destruct (showCall_devices c st) as [H3 H4].
    split; [congruence | lia].
Qed.

Lemma beforeAudio_devices m st :
  devices (beforeAudio m st) = devices st /\ (fresh st <= fresh (beforeAudio m st))%positive.
Proof.
  rewrite beforeAudio_blocks.
  assert (Ht : devices (handleTranscription m st) = devices st /\
               fresh (handleTranscription m st) = fresh st)
    by (transcription_cases m; split; reflexivity).
  destruct Ht as [Ht Hf].
  unfold handleToolCall.
  destruct (toolCall m) as [[|c cs]|]; try (split; [assumption | lia]).
  remember (c :: cs) as calls eqn:E. clear E.
  destruct (showCalls_devices calls (handleTranscription m st)) as [H1 H2].
  split; [exact (eq_trans H1 Ht) | cbn; lia].
Qed.

Lemma onmessage_devices now m st :
  devices (onmessage now m st) = devices st /\ (fresh st <= fresh (onmessage now m st))%positive.
Proof.
  rewrite onmessage_blocks.
  destruct (beforeAudio_devices m st) as [Hd Hf].
  assert (H : devices match handleAudio now m (beforeAudio m st) with
                      | Return st' => st'
                      | Continue st' => handleInterrupted m st'
                      end = devices (beforeAudio m st) /\
              (fresh (beforeAudio m st) <=
               fresh match handleAudio now m (beforeAudio m st) with
                     | Return st' => st'
                     | Continue st' => handleInterrupted m st'
                     end)%positive).
  { unfold devices. audio_cases m (beforeAudio m st); cbn; rewrite ?Hctx;
      (split; [reflexivity | lia]). }
  destruct H as [H1 H2]. split; [congruence | lia].
Qed.

Lemma isRelease_toolResponse m : filter isRelease (toolResponse m) = [].
Proof. unfold toolResponse. now destruct (toolCall m) as [[|? ?]|]. Qed.

Lemma isRelease_stops l : filter isRelease (map (fun src => SourceStop (node src)) l) = [].
Proof. induction l; [reflexivity | assumption]. Qed.

(** A message makes no call that gives a device or the channel back. *)
Lemma onmessage_no_release now m st :
  exists x, log (onmessage now m st) = log st ++ x /\ filter isRelease x = [].
Proof.
  rewrite onmessage_blocks.
  destruct (beforeAudio_playback m st) as (_ & _ & _ & _ & Hl).
  audio_cases m (beforeAudio m st); cbn; rewrite Hl, <- ?app_assoc;
    eexists; (split; [reflexivity|]);
    rewrite ?filter_app, ?isRelease_toolResponse, ?isRelease_stops; reflexivity.
Qed.

Lemma onended_devices n st : devices (onended n st) = devices st.
Proof.
  unfold onended, devices. cbn [audioSourcesRef setAudioSourcesRef].
  destruct (filter _ (audioSourcesRef st)); reflexivity.
Qed.

Lemma onended_log n st : log (onended n st) = log st.
Proof.
  unfold onended. cbn [audioSourcesRef setAudioSourcesRef].
  destruct (filter _ (audioSourcesRef st)); reflexivity.
Qed.

Lemma tipTimeoutFired_devices h st :
  devices (tipTimeoutFired h st) = devices st /\ log (tipTimeoutFired h st) = log st.
Proof. unfold tipTimeoutFired. destruct (existsb _ _); split; reflexivity. Qed.

(** An event of a running session leaves the device refs as they are and
    gives nothing back. *)
Lemma inSession_devices st ev :
  inSession ev ->
  devices (handle st ev) = devices st /\
  exists x, log (handle st ev) = log st ++ x /\ filter isRelease x = [].
Proof.
  destruct ev; cbn [inSession handle]; intros H; try contradiction.
  - split; [apply onmessage_devices | apply onmessage_no_release].
  - split; [apply onended_devices|]. exists []. now rewrite onended_log, app_nil_r.
  - split; [reflexivity|]. now eexists [_].
  - split; [apply tipTimeoutFired_devices|]. exists [].
    now rewrite (proj2 (tipTimeoutFired_devices h st)), app_nil_r.
  - split; [reflexivity|]. exists []. now rewrite app_nil_r.
Qed.

Lemma run_cons ev evs st : run (ev :: evs) st = run evs (handle st ev).
Proof. reflexivity. Qed.

Lemma run_inSession evs : forall st,
  Forall inSession evs ->
  devices (run evs st) = devices st /\
  exists x, log (run evs st) = log st ++ x /\ filter isRelease x = [].
Proof.
  induction evs as [|ev evs IH]; intros st Hevs.
  - split; [reflexivity|]. exists []. now rewrite app_nil_r.
  - inversion Hevs as [|? ? Hev Hrest]; subst. rewrite run_cons.
    destruct (inSession_devices st ev Hev) as (Hd & x & Hx & Hfx).
    destruct (IH (handle st ev) Hrest) as (Hd' & y & Hy & Hfy).
    split; [congruence|].
    exists (x ++ y). split.
    + now rewrite Hy, Hx, app_assoc.
    + now rewrite filter_app, Hfx, Hfy.
Qed.

(** What [startSession] and [onopen] leave in the refs, whatever was there. *)
Lemma opened_devices st :
  devices (onopen (startSession true st)) =
  (Some (newObject st 2), Some (newObject st 5), Some (newObject st 6),
   Some (newObject st 0), Some (newObject st 1), Some (newObject st 4)).
Proof. reflexivity. Qed.

(** X1.  From a successful start and the opening of the channel until the
    session is stopped, no handler of a running session (messages, ended
    sources, capture windows, tip timeouts and dismissals) replaces a device
    ref or makes a call that gives a device or the channel back; so that
    [stopSession] then stops the stream, disconnects both capture nodes,
    closes both audio contexts and closes the channel that [startSession]
    and [onopen] created, each once, and leaves no ref set. *)
Theorem session_devices_released_at_stop (st : LiveTutor) (evs : list Event) :
  Forall inSession evs ->
  devices (run evs (onopen (startSession true st))) =
    devices (onopen (startSession true st)) /\
  filter isRelease
    (emitted (onopen (startSession true st)) (run evs (onopen (startSession true st)))) = [] /\
  emitted (run evs (onopen (startSession true st)))
          (stopSession (run evs (onopen (startSession true st)))) =
    [ TrackStop (newObject st 2); NodeDisconnect (newObject st 5);
      NodeDisconnect (newObject st 6); ContextClose (newObject st 0);
      ContextClose (newObject st 1); SessionClose (newObject st 4) ] /\
  released (stopSession (run evs (onopen (startSession true st)))).
Proof.
  intros Hevs.
  destruct (run_inSession evs (onopen (startSession true st)) Hevs) as (Hd & x & Hx & Hfx).
  split; [exact Hd|]. split; [now rewrite (emitted_extends _ _ _ Hx)|].
  split; [|apply stopSession_released].
  rewrite (emitted_extends _ _ _ (stopSession_log _)).
  rewrite (releases_devices _ _ Hd). reflexivity.
Qed.

Lemma session_devices_released_at_stop_witness :
  filter isRelease
    (emitted (onopen (startSession true initial))
             (run sessionEvents (onopen (startSession true initial)))) = [] /\
  emitted (run sessionEvents (onopen (startSession true initial)))
          (stopSession (run sessionEvents (onopen (startSession true initial)))) =
    [ TrackStop 3; NodeDisconnect 6; NodeDisconnect 7; ContextClose 1; ContextClose 2;
      SessionClose 5 ].
Proof.
  destruct (session_devices_released_at_stop initial sessionEvents) as (_ & H1 & H2 & _).
  - repeat constructor.
  - split; [exact H1 | exact H2].
Defined.

(** ** The tip's dismissal timeout *)

Lemma sameTimers_tracked st st' : sameTimers st st' -> tipTimerTracked st -> tipTimerTracked st'.
Proof.
  intros (Ht & Hr & Hf) [H | (h & H1 & H2 & H3)].
  - left. congruence.
  - right. exists h. repeat split; try congruence. lia.
Qed.

(** Showing a tip cancels the pending timeout and leaves the new one alone. *)
Lemma showCall_tracked call st : tipTimerTracked st -> tipTimerTracked (showCall call st).
Proof.
  intros H. unfold showCall.
  destruct (call_name call =? "showPronunciationTip")%string; [|exact H].
  cbn [tipTimeoutRef setCurrentTip].
  right. exists (fresh st).
  destruct H as [H | (h & H1 & H2 & H3)].
  - destruct (tipTimeoutRef st); cbn; rewrite H; cbn; repeat split; lia.
  - rewrite H2. cbn. rewrite H1. cbn. rewrite Pos.eqb_refl. cbn. repeat split; lia.
Qed.

Lemma showCalls_tracked calls : forall st,
  tipTimerTracked st -> tipTimerTracked (fold_left (fun st call => showCall call st) calls st).
Proof.
  induction calls as [|c calls IH]; intros st H; [exact H|].
  cbn [fold_left]. apply IH, showCall_tracked, H.
Qed.

Lemma onmessage_tracked now m st : tipTimerTracked st -> tipTimerTracked (onmessage now m st).
Proof.
  intros H. rewrite onmessage_blocks.
  assert (Hb : tipTimerTracked (beforeAudio m st)).
  { rewrite beforeAudio_blocks.
    assert (Ht : tipTimerTracked (handleTranscription m st)).
    { apply (sameTimers_tracked st); [|exact H].
      unfold sameTimers. transcription_cases m; cbn; repeat split; lia. }
    unfold handleToolCall.
    destruct (toolCall m) as [[|c cs]|]; try exact Ht.
    remember (c :: cs) as calls eqn:E. clear E.
    apply (sameTimers_tracked (fold_left (fun st call => showCall call st) calls
                                         (handleTranscription m st)));
      [unfold sameTimers; cbn; repeat split; lia|].
    now apply showCalls_tracked. }
  apply (sameTimers_tracked (beforeAudio m st)); [|exact Hb].
  unfold sameTimers. audio_cases m (beforeAudio m st); cbn; repeat split; lia.
Qed.

Lemma stopSession_tracked st : tipTimerTracked st -> tipTimerTracked (stopSession st).
Proof.
  intros H. left. rewrite stopSession_record. cbn [timers].
  destruct H as [H | (h & H1 & H2 & _)].
  - rewrite H. now destruct (tipTimeoutRef st).
  - rewrite H2, H1. cbn. now rewrite Pos.eqb_refl.
Qed.

Lemma handle_tracked st ev : tipTimerTracked st -> tipTimerTracked (handle st ev).
Proof.
  intros H. destruct ev; cbn [handle].
  - apply (sameTimers_tracked st); [|exact H].
    unfold sameTimers. cbn. repeat split; lia.
  - apply (sameTimers_tracked st); [|exact H].
    unfold sameTimers, startSession_resume, startSession_catch.
    destruct granted; cbn [outputContextRef allocate setStreamRef setFresh];
      try destruct (outputContextRef st); cbn; repeat split; lia.
  - apply (sameTimers_tracked st); [|exact H].
    unfold sameTimers, onopen. cbn [inputContextRef setIsConnected setStatus].
    destruct (inputContextRef st); cbn; repeat split; lia.
  - now apply onmessage_tracked.
  - apply (sameTimers_tracked st); [|exact H].
    unfold sameTimers, onended. cbn [audioSourcesRef setAudioSourcesRef].
    destruct (filter _ (audioSourcesRef st)); cbn; repeat split; lia.
  - apply (sameTimers_tracked st); [|exact H].
    unfold sameTimers. cbn. repeat split; lia.
  - unfold tipTimeoutFired.
    destruct (existsb (Pos.eqb h) (timers st)) eqn:E; [|exact H].
    left. destruct H as [H | (h' & H1 & _)]; cbn.
    + now rewrite H.
    + rewrite H1 in *. cbn in E. rewrite orb_false_r in E.
      apply Pos.eqb_eq in E. subst h'. cbn. now rewrite Pos.eqb_refl.
  - apply (sameTimers_tracked st); [|exact H].
    unfold sameTimers. cbn. repeat split; lia.
  - now apply stopSession_tracked.
  - now apply stopSession_tracked.
  - unfold onerror. apply stopSession_tracked.
    apply (sameTimers_tracked st); [|exact H].
    unfold sameTimers. cbn. repeat split; lia.
Qed.

(** X2.  Whatever happens to the component (starts, stops, channel events,
    messages with any tool calls, timeouts firing, in any order), at most one
    dismissal timeout is pending, and it is the one [tipTimeoutRef] holds. *)
Theorem tip_timeout_tracked (st : LiveTutor) (evs : list Event) :
  tipTimerTracked st -> tipTimerTracked (run evs st).
Proof.
  revert st. induction evs as [|ev evs IH]; intros st H; [exact H|].
  rewrite run_cons. apply IH, handle_tracked, H.
Qed.

Lemma tip_timeout_tracked_witness :
  tipTimerTracked
    (run [StartClicked; MediaSettled true; ChannelOpened;
          MessageReceived 0 (toolMessage [thinkCall; tipWithoutAdvice]);
          MessageReceived 1 tutorSpeaks; TipTimedOut 8; StopClicked]
         initial).
Proof.
  apply (tip_timeout_tracked initial). now left.
Defined.










(** A call without arguments takes the tip off the screen and still leaves
    a timeout pending. *)
Example tip_without_arguments :
  currentTip talking <> None /\
  currentTip (onmessage 1 (toolMessage [tipWithoutArgs]) talking) = None /\
  timers (onmessage 1 (toolMessage [tipWithoutArgs]) talking) = [10%positive].
Proof. split; [discriminate|]. split; reflexivity. Qed.

(** ** Starting, and what a start leaves behind *)

Lemma releases_contextClose st c :
  In (ContextClose c) (releases st) ->
  inputContextRef st = Some c \/ outputContextRef st = Some c.
Proof.
  unfold releases, owed. rewrite !in_app_iff.
  destruct (streamRef st), (sourceRef st), (processorRef st), (inputContextRef st),
    (outputContextRef st), (sessionPromiseRef st); cbn;
    intuition (try discriminate; try congruence).
Qed.

Lemma releases_trackStop st s :
  In (TrackStop s) (releases st) -> streamRef st = Some s.
Proof.
  unfold releases, owed. rewrite !in_app_iff.
  destruct (streamRef st), (sourceRef st), (processorRef st), (inputContextRef st),
    (outputContextRef st), (sessionPromiseRef st); cbn;
    intuition (try discriminate; try congruence).
Qed.

Lemma startSession_log granted st : log (startSession granted st) = log st.
Proof.
  unfold startSession, startSession_resume, startSession_begin, startSession_catch.
  destruct granted; reflexivity.
Qed.

(** X4.  When the microphone is refused, [startSession] ends in error with
    its message, and the two audio contexts it has just created stay open in
    their refs: nothing is closed.  The Start button is available (unless the
    component was connected), and the next start puts new contexts in the
    refs without closing those of the failed attempt, so that no later
    [stopSession] closes them either. *)
Theorem failed_start_keeps_contexts (st : LiveTutor) (granted : bool) :
  status (startSession false st) = error /\
  errorMessage (startSession false st) = Some "Could not access microphone or connect." /\
  inputContextRef (startSession false st) = Some (newObject st 0) /\
  outputContextRef (startSession false st) = Some (newObject st 1) /\
  emitted st (startSession false st) = [] /\
  canStart (startSession false st) = negb (isConnected st) /\
  ~ In (ContextClose (newObject st 0))
       (emitted st (stopSession (startSession granted (startSession false st)))) /\
  ~ In (ContextClose (newObject st 1))
       (emitted st (stopSession (startSession granted (startSession false st)))).
Proof.
  split; [reflexivity|]. split; [reflexivity|]. split; [reflexivity|].
  split; [reflexivity|].
  split; [apply emitted_extends; now rewrite startSession_log, app_nil_r|].
  split; [unfold canStart; cbn; now rewrite andb_true_r|].
  assert (He : emitted st (stopSession (startSession granted (startSession false st))) =
               releases (startSession granted (startSession false st))).
  { apply emitted_extends. now rewrite stopSession_log, !startSession_log. }
  rewrite He.
  split; intros Hin; apply releases_contextClose in Hin;
    unfold newObject in Hin; destruct granted; cbn in Hin;
    destruct Hin as [Hin | Hin]; injection Hin as Hin; lia.
Qed.

(** X5.  When [getUserMedia] resolves with a stream after [stopSession] has
    run, [startSession] stores the stream in its ref, fails on the missing
    output context and ends in its catch block: status error, the message
    set, nothing stopped, the component not connected, so that the page
    offers Start and no End Session.  The next successful start replaces the
    ref, and stopping that session does not stop the tracks of the first
    stream. *)
Theorem stream_granted_after_stop_is_kept (st : LiveTutor) :
  status (startSession_resume true (stopSession st)) = error /\
  errorMessage (startSession_resume true (stopSession st)) =
    Some "Could not access microphone or connect." /\
  streamRef (startSession_resume true (stopSession st)) = Some (newObject st 0) /\
  emitted (stopSession st) (startSession_resume true (stopSession st)) = [] /\
  canStart (startSession_resume true (stopSession st)) = true /\
  ~ In (TrackStop (newObject st 0))
       (emitted (stopSession st)
          (stopSession (startSession true (startSession_resume true (stopSession st))))).
Proof.
  rewrite stopSession_record.
  split; [reflexivity|]. split; [reflexivity|]. split; [reflexivity|].
  split; [apply emitted_extends; cbn; now rewrite app_nil_r|].
  split; [reflexivity|].
  match goal with
  | |- ~ In _ (emitted ?a (stopSession ?b)) =>
      assert (He : emitted a (stopSession b) = releases b)
        by (apply emitted_extends; rewrite stopSession_log, startSession_log; reflexivity)
  end.
  rewrite He. intros Hin. apply releases_trackStop in Hin.
  unfold newObject in Hin. cbn in Hin. injection Hin as Hin. lia.
Qed.

(** X6.  When the channel opens after [stopSession] has run, [onopen] still
    marks the component active and connected, and returns before it creates
    the capture nodes: no microphone audio is captured, and the page offers
    End Session instead of Start. *)
Theorem open_after_stop_marks_active (st : LiveTutor) :
  status (onopen (stopSession st)) = active /\
  isConnected (onopen (stopSession st)) = true /\
  sourceRef (onopen (stopSession st)) = None /\
  processorRef (onopen (stopSession st)) = None /\
  streamRef (onopen (stopSession st)) = None /\
  fresh (onopen (stopSession st)) = fresh st /\
  canStart (onopen (stopSession st)) = false.
Proof.
  rewrite stopSession_record. repeat split; reflexivity.
Qed.

(** ** Audio that arrives at the edges of a session *)

(** X7.  A message with audio that arrives while there is no output context
    marks the tutor as speaking and ends the handler there: no source is
    created or stopped, the source set and the scheduling cursor stay as they
    were, and only the acknowledgement of the message's tool calls is sent,
    whether or not the message also carries the interrupted flag. *)
Theorem audio_without_output_context_is_dropped
  (now : float) (m : LiveServerMessage) (st : LiveTutor) :
  dropsAudio m st = true ->
  aiSpeaking (onmessage now m st) = true /\
  audioSourcesRef (onmessage now m st) = audioSourcesRef st /\
  nextStartTimeRef (onmessage now m st) = nextStartTimeRef st /\
  emitted st (onmessage now m st) = toolResponse m.
Proof.
  intros Hd. rewrite onmessage_blocks.
  destruct (beforeAudio_playback m st) as (Hc & Hn & Hs & _ & Hl).
  unfold dropsAudio in Hd. unfold handleAudio, audioPrepare.
  destruct (inlineData m) as [chunk|]; [|discriminate].
  destruct (outputContextRef st) eqn:E; [discriminate|].
  destruct (data chunk =? "")%string; [discriminate|].
  cbn [outputContextRef setAiSpeaking]. rewrite Hc.
  repeat split; try assumption.
  now apply emitted_extends.
Qed.

Lemma audio_without_output_context_is_dropped_witness :
  aiSpeaking (onmessage 1 interruptedWithAudio (stopSession talking)) = true /\
  audioSourcesRef (onmessage 1 interruptedWithAudio (stopSession talking)) =
    audioSourcesRef (stopSession talking) /\
  nextStartTimeRef (onmessage 1 interruptedWithAudio (stopSession talking)) =
    nextStartTimeRef (stopSession talking) /\
  emitted (stopSession talking) (onmessage 1 interruptedWithAudio (stopSession talking)) =
    toolResponse interruptedWithAudio.
Proof.
  apply (audio_without_output_context_is_dropped 1 interruptedWithAudio (stopSession talking)).
  reflexivity.
Defined.

Lemma onmessage_outputContext now m st :
  outputContextRef (onmessage now m st) = outputContextRef st.
Proof.
  pose proof (proj1 (onmessage_devices now m st)) as H.
  unfold devices in H. now injection H.
Qed.

Lemma dropsAudio_context m st : outputContextRef st <> None -> dropsAudio m st = false.
Proof.
  intros H. unfold dropsAudio.
  destruct (inlineData m); [|reflexivity].
  now destruct (outputContextRef st).
Qed.

(** The one chunk of a message is started where [onmessage_enqueue] says. *)
Lemma onmessage_starts_chunk now m chunk st :
  outputContextRef st <> None ->
  interrupted m = false ->
  inlineData m = Some chunk ->
  data chunk <> "" ->
  exists src,
    started (emitted st (onmessage now m st)) = [src] /\
    timing src = (Math_max (nextStartTimeRef st) now, duration chunk).
Proof.
  intros Hctx Hint Hin Hdata.
  destruct (onmessage_enqueue now m st Hctx Hint) as [_ H].
  unfold audioOf in H. cbn [fst snd] in H. rewrite Hin in H.
  apply String.eqb_neq in Hdata. rewrite Hdata in H.
  destruct H as (_ & src & Hl & Ht).
  exists src. split; [|exact Ht].
  rewrite (emitted_extends _ _ _ Hl), started_app, started_toolResponse. reflexivity.
Qed.

(** X8.  After an interruption has been handled, the next chunk does not
    queue behind the audio that was stopped: with a clock that is not
    negative it starts at the clock (the start is the same number as the
    clock value). *)
Theorem chunk_after_interruption_starts_at_clock
  (now now' : float) (m m' : LiveServerMessage) (chunk : InlineData) (st : LiveTutor) :
  outputContextRef st <> None ->
  interrupted m = true ->
  interrupted m' = false ->
  inlineData m' = Some chunk ->
  data chunk <> "" ->
  notNegative now' ->
  exists src,
    started (emitted (onmessage now m st) (onmessage now' m' (onmessage now m st))) = [src] /\
    (startTime src =? now')%float = true /\
    bufferDuration src = duration chunk.
Proof.
  intros Hctx Hi Hi' Hin Hdata Hnow.
  destruct (interruption_resets_playback now m st Hi (dropsAudio_context m st Hctx))
    as (_ & Hn & _).
  assert (Hctx' : outputContextRef (onmessage now m st) <> None)
    by now rewrite onmessage_outputContext.
  destruct (onmessage_starts_chunk now' m' chunk _ Hctx' Hi' Hin Hdata) as (src & Hs & Ht).
  exists src. split; [exact Hs|].
  injection Ht as Hst Hd. rewrite Hn in Hst.
  split; [|exact Hd]. rewrite Hst. now apply Math_max_zero.
Qed.

Lemma chunk_after_interruption_starts_at_clock_witness :
  exists src,
    started (emitted (onmessage 1 interruption talking)
                     (onmessage 1.5 (audioMessage "AAAA" 1) (onmessage 1 interruption talking)))
    = [src] /\
    (startTime src =? 1.5)%float = true /\
    bufferDuration src = duration {| data := "AAAA"; duration := 1 |}.
Proof.
  apply (chunk_after_interruption_starts_at_clock 1 1.5 interruption
           (audioMessage "AAAA" 1) {| data := "AAAA"; duration := 1 |} talking).
  - discriminate.
  - reflexivity.
  - reflexivity.
  - reflexivity.
  - discriminate.
  - reflexivity.
Defined.

(** X9.  Neither [stopSession] nor [startSession] resets the scheduling
    cursor or empties the source set: in the next session they are as the
    previous one left them, and the first chunk starts at the later of the
    old cursor and the new clock. *)
Theorem cursor_survives_restart
  (now : float) (m : LiveServerMessage) (chunk : InlineData) (st : LiveTutor) :
  interrupted m = false ->
  inlineData m = Some chunk ->
  data chunk <> "" ->
  nextStartTimeRef (onopen (startSession true (stopSession st))) = nextStartTimeRef st /\
  audioSourcesRef (onopen (startSession true (stopSession st))) = audioSourcesRef st /\
  exists src,
    started (emitted (onopen (startSession true (stopSession st)))
                     (onmessage now m (onopen (startSession true (stopSession st))))) = [src] /\
    timing src = (Math_max (nextStartTimeRef st) now, duration chunk).
Proof.
  intros Hi Hin Hdata.
  assert (Hn : nextStartTimeRef (onopen (startSession true (stopSession st))) =
               nextStartTimeRef st)
    by (rewrite stopSession_record; reflexivity).
  split; [exact Hn|].
  split; [rewrite stopSession_record; reflexivity|].
  assert (Hctx : outputContextRef (onopen (startSession true (stopSession st))) <> None)
    by (rewrite stopSession_record; discriminate).
  destruct (onmessage_starts_chunk now m chunk _ Hctx Hi Hin Hdata) as (src & Hs & Ht).
  exists src. split; [exact Hs|]. now rewrite Ht, Hn.
Qed.

Lemma cursor_survives_restart_witness :
  nextStartTimeRef (onopen (startSession true (stopSession talking))) =
    nextStartTimeRef talking /\
  audioSourcesRef (onopen (startSession true (stopSession talking))) =
    audioSourcesRef talking /\
  exists src,
    started (emitted (onopen (startSession true (stopSession talking)))
                     (onmessage 0 (audioMessage "AAAA" 1)
                                (onopen (startSession true (stopSession talking))))) = [src] /\
    timing src = (Math_max (nextStartTimeRef talking) 0,
                  duration {| data := "AAAA"; duration := 1 |}).
Proof.
  apply (cursor_survives_restart 0 (audioMessage "AAAA" 1)
           {| data := "AAAA"; duration := 1 |} talking).
  - reflexivity.
  - reflexivity.
  - discriminate.
Defined.

(** ** The end of playback *)

Lemma onended_sources n st :
  audioSourcesRef (onended n st) =
  filter (fun src => negb (Pos.eqb (node src) n)) (audioSourcesRef st).
Proof.
  unfold onended. cbn [audioSourcesRef setAudioSourcesRef].
  destruct (filter _ (audioSourcesRef st)); reflexivity.
Qed.

Lemma onended_speaking n st :
  aiSpeaking (onended n st) =
  match audioSourcesRef (onended n st) with
  | [] => false
  | _ :: _ => aiSpeaking st
  end.
Proof.
  rewrite onended_sources. unfold onended. cbn [audioSourcesRef setAudioSourcesRef].
  destruct (filter _ (audioSourcesRef st)); reflexivity.
Qed.

Lemma endAll_sources ns : forall st,
  audioSourcesRef (endAll ns st) =
  filter (fun src => negb (existsb (Pos.eqb (node src)) ns)) (audioSourcesRef st).
Proof.
  induction ns as [|n ns IH]; intros st; cbn [endAll fold_left existsb].
  - induction (audioSourcesRef st) as [|s l IHl]; [reflexivity|]. cbn. now f_equal.
  - change (fold_left (fun st n => onended n st) ns (onended n st)) with (endAll ns (onended n st)).
    rewrite IH, onended_sources.
    induction (audioSourcesRef st) as [|s l IHl]; [reflexivity|].
    cbn. destruct (Pos.eqb (node s) n); cbn; [exact IHl|].
    destruct (existsb (Pos.eqb (node s)) ns); cbn; [exact IHl | now f_equal].
Qed.

(** X10.  Each ended source leaves the set, and nothing else does; while a
    source remains, the speaking flag is as it was, and it is cleared when
    the set becomes empty.  So once every source of the set has ended, in
    whatever order, the set is empty and the tutor is no longer shown as
    speaking. *)
Theorem speaking_ends_with_last_source (ns : list positive) (st : LiveTutor) :
  ns <> [] ->
  (forall src, In src (audioSourcesRef st) -> In (node src) ns) ->
  audioSourcesRef (endAll ns st) = [] /\
  aiSpeaking (endAll ns st) = false /\
  (forall n, audioSourcesRef (onended n st) <> [] ->
             aiSpeaking (onended n st) = aiSpeaking st) /\
  (forall n src, In src (audioSourcesRef (onended n st)) <->
                 In src (audioSourcesRef st) /\ node src <> n).
Proof.
  intros Hne Hall.
  assert (Hempty : audioSourcesRef (endAll ns st) = []).
  { rewrite endAll_sources.
    induction (audioSourcesRef st) as [|s l IHl]; [reflexivity|].
    cbn. assert (Hs : existsb (Pos.eqb (node s)) ns = true).
    { apply existsb_exists. exists (node s). split; [apply Hall; now left|].
      apply Pos.eqb_refl. }
    rewrite Hs. cbn. apply IHl. intros src Hin. apply Hall. now right. }
  split; [exact Hempty|]. split; [|split].
  - destruct (exists_last Hne) as (ns' & n & ->).
    unfold endAll in *. rewrite fold_left_app in *. cbn [fold_left] in *.
    rewrite onended_speaking, Hempty. reflexivity.
  - intros n Hn. rewrite onended_speaking.
    now destruct (audioSourcesRef (onended n st)).
  - intros n src. rewrite onended_sources, filter_In, negb_true_iff, Pos.eqb_neq.
    reflexivity.
Qed.

Lemma speaking_ends_with_last_source_witness :
  audioSourcesRef (endAll [10; 9]%positive (onmessage 1 (audioMessage "AAAA" 1) talking)) = [] /\
  aiSpeaking (endAll [10; 9]%positive (onmessage 1 (audioMessage "AAAA" 1) talking)) = false.
Proof.
  destruct (speaking_ends_with_last_source [10; 9]%positive
              (onmessage 1 (audioMessage "AAAA" 1) talking)) as (H1 & H2 & _).
  - discriminate.
  - intros src Hin.
    assert (E : map node (audioSourcesRef (onmessage 1 (audioMessage "AAAA" 1) talking)) =
                [9; 10]%positive) by (vm_compute; reflexivity).
    apply (in_map node) in Hin. rewrite E in Hin.
    destruct Hin as [<- | [<- | []]]; cbn; auto.
  - split; [exact H1 | exact H2].
Defined.

(** ** The visualizer *)

Lemma showCalls_volume calls : forall st,
  volume (fold_left (fun st call => showCall call st) calls st) = volume st.
Proof.
  induction calls as [|c calls IH]; intros st; [reflexivity|].
  cbn [fold_left]. rewrite IH. unfold showCall.
  destruct (call_name c =? "showPronunciationTip")%string; [|reflexivity].
  cbn [tipTimeoutRef setCurrentTip]. now destruct (tipTimeoutRef st).
Qed.

Lemma onmessage_volume now m st : volume (onmessage now m st) = volume st.
Proof.
  rewrite onmessage_blocks.
  assert (Hb : volume (beforeAudio m st) = volume st).
  { rewrite beforeAudio_blocks.
    assert (Ht : volume (handleTranscription m st) = volume st)
      by (transcription_cases m; reflexivity).
    unfold handleToolCall.
    destruct (toolCall m) as [[|c cs]|]; try exact Ht.
    remember (c :: cs) as calls eqn:E. clear E.
    cbn [volume emit setLog]. now rewrite showCalls_volume. }
  rewrite <- Hb. audio_cases m (beforeAudio m st); reflexivity.
Qed.

(** The volume is never negative. *)
Lemma volume_nonneg evs : forall st,
  0 <= exact (volume st) -> 0 <= exact (volume (run evs st)).
Proof.
  induction evs as [|ev evs IH]; intros st H; [exact H|].
  rewrite run_cons. apply IH.
  destruct ev; cbn [handle].
  - exact H.
  - unfold startSession_resume, startSession_catch.
    destruct granted; cbn [outputContextRef allocate setStreamRef setFresh];
      try destruct (outputContextRef st); exact H.
  - unfold onopen. cbn [inputContextRef setIsConnected setStatus].
    destruct (inputContextRef st); exact H.
  - now rewrite onmessage_volume.
  - unfold onended. cbn [audioSourcesRef setAudioSourcesRef].
    destruct (filter _ (audioSourcesRef st)); exact H.
  - apply sqrt_exact_nonneg.
  - unfold tipTimeoutFired. destruct (existsb _ _); exact H.
  - exact H.
  - now rewrite stopSession_record.
  - unfold onclose. now rewrite stopSession_record.
  - unfold onerror. now rewrite stopSession_record.
Qed.

(** X11.  In every state the component can reach, whatever the time of the
    frame, the radius [drawVisualizer] passes to [ctx.arc] for the ripple is
    at least the radius of the core disc, hence never negative: while
    connected it lies between 36 and 44, plus 80 times the volume, and it is
    40 otherwise.  The visualizer's arithmetic is taken over the reals, from
    the real value of the volume. *)
Theorem ripple_never_smaller_than_core (evs : list Event) (dateNow : R) :
  (coreRadius <= rippleRadius (run evs initial) dateNow)%R /\
  if isConnected (run evs initial)
  then (36 + 80 * volumeOf (run evs initial) <= rippleRadius (run evs initial) dateNow
        <= 44 + 80 * volumeOf (run evs initial))%R
  else rippleRadius (run evs initial) dateNow = 40%R.
Proof.
  assert (Hv : (0 <= volumeOf (run evs initial))%R).
  { unfold volumeOf. rewrite <- RMicromega.Q2R_0. apply Qle_Rle.
    apply volume_nonneg. vm_compute. discriminate. }
  pose proof (SIN_bound (pulseAt dateNow)) as [Hlo Hhi].
  unfold rippleRadius, rippleScale, coreRadius, baseRadius.
  destruct (isConnected (run evs initial)); repeat split; Lra.lra.
Qed.

(** X12.  What the page shows after each kind of failure.  After a refused
    microphone: the error banner, no status line, and the Start button
    enabled (End Session if the component was connected).  After a transport error:
    the connection error banner over the line "Ready to start?", and the
    Start button enabled. *)
Theorem failures_on_screen (st : LiveTutor) :
  (errorMessage (startSession false st) = Some "Could not access microphone or connect." /\
   statusLabel (startSession false st) = None /\
   control (startSession false st) =
     if isConnected st then EndSession else StartConversation false) /\
  (errorMessage (onerror st) = Some "Connection error. Please try again." /\
   statusLabel (onerror st) = Some "Ready to start?" /\
   control (onerror st) = StartConversation false).
Proof.
  split.
  - split; [reflexivity|]. split; [reflexivity|].
    unfold control. cbn. now destruct (isConnected st).
  - unfold onerror. unfold statusLabel, control. rewrite stopSession_record.
    repeat split; reflexivity.
Qed.

(** ** Captions *)

(** Both transcripts after one message. *)
Lemma onmessage_transcripts now m st :
  userTranscript (onmessage now m st) =
    match inputTranscription m with
    | Some t => if (t =? "")%string then userTranscript st else t
    | None => userTranscript st
    end /\
  aiTranscript (onmessage now m st) =
    if clearsRemote st m then ""%string else (aiTranscript st ++ delta m)%string.
Proof.
  split.
  - rewrite onmessage_blocks.
    rewrite (sbp_userTranscript _ _ (afterTools_frame now m (beforeAudio m st))).
    rewrite beforeAudio_blocks.
    pose proof (sbt_userTranscript _ _ (handleToolCall_frame m (handleTranscription m st)))
      as H.
    cbn in H. rewrite H. apply handleTranscription_user.
  - rewrite onmessage_blocks.
    destruct (beforeAudio_playback m st) as (Hc & _ & _ & _ & _).
    assert (Ht : aiTranscript (beforeAudio m st) =
                 if turnComplete m then ""%string else (aiTranscript st ++ delta m)%string).
    { rewrite beforeAudio_blocks.
      pose proof (sbt_aiTranscript _ _ (handleToolCall_frame m (handleTranscription m st)))
        as H.
      cbn in H. rewrite H. apply handleTranscription_remote. }
    unfold clearsRemote, dropsAudio. rewrite <- Hc.
    audio_cases m (beforeAudio m st); cbn; rewrite ?Ht;
      destruct (turnComplete m); reflexivity.
Qed.

Lemma clearsRemote_onmessage now m st m' :
  clearsRemote (onmessage now m st) m' = clearsRemote st m'.
Proof.
  unfold clearsRemote, dropsAudio. now rewrite onmessage_outputContext.
Qed.

Lemma remoteCaption_onmessage now m st inbound : forall caption,
  remoteCaption (onmessage now m st) inbound caption = remoteCaption st inbound caption.
Proof.
  induction inbound as [|nm inbound IH]; intros caption; [reflexivity|].
  unfold remoteCaption in *. cbn [fold_left].
  rewrite clearsRemote_onmessage. apply IH.
Qed.

(** X15.  Over any run of messages, the user caption is the last user
    fragment that was not empty (the caption before the run if there was
    none), and the remote caption is made of the remote fragments received
    since the last message that signalled turn-complete or an interruption
    that was handled, in the order they came. *)
Theorem captions_over_a_run (inbound : list (float * LiveServerMessage)) (st : LiveTutor) :
  userTranscript (receive inbound st) = userCaption inbound (userTranscript st) /\
  aiTranscript (receive inbound st) = remoteCaption st inbound (aiTranscript st).
Proof.
  revert st. induction inbound as [|[now m] inbound IH]; intros st; [split; reflexivity|].
  rewrite receive_cons. cbn [fst snd].
  destruct (IH (onmessage now m st)) as [Hu Ha].
  destruct (onmessage_transcripts now m st) as [Tu Ta].
  rewrite Hu, Ha, Tu, Ta, remoteCaption_onmessage. split; reflexivity.
Qed.

(** * The text chat *)

(** ** [handleSend] *)

Lemma setText_others bot t msgs :
  Forall (fun msg => msg_id msg <> bot) msgs -> setText bot t msgs = msgs.
Proof.
  induction 1 as [|msg msgs Hm _ IH]; [reflexivity|].
  cbn. apply Z.eqb_neq in Hm. rewrite Hm. now f_equal.
Qed.

Lemma setText_placeholder bot t t0 msgs :
  Forall (fun msg => msg_id msg <> bot) msgs ->
  setText bot t (msgs ++ [{| msg_id := bot; role := model; text := t0 |}]) =
  msgs ++ [{| msg_id := bot; role := model; text := t |}].
Proof.
  intros H. unfold setText. rewrite map_app.
  fold (setText bot t msgs). rewrite (setText_others _ _ _ H).
  cbn. now rewrite Z.eqb_refl.
Qed.

(** While the stream is read, only the bot's message changes, and its text
    is the text read so far. *)
Lemma receiveChunks_placeholder bot chunks : forall acc msgs,
  Forall (fun msg => msg_id msg <> bot) msgs ->
  fold_left (receiveChunk bot) chunks
            (acc, msgs ++ [{| msg_id := bot; role := model; text := acc |}]) =
  (fold_left (fun acc chunk => match chunk with
                               | Some t => (acc ++ t)%string
                               | None => acc
                               end) chunks acc,
   msgs ++ [{| msg_id := bot; role := model;
               text := fold_left (fun acc chunk => match chunk with
                                                   | Some t => (acc ++ t)%string
                                                   | None => acc
                                                   end) chunks acc |}]).
Proof.
  induction chunks as [|chunk chunks IH]; intros acc msgs H; [reflexivity|].
  cbn [fold_left]. destruct chunk as [t|]; cbn [receiveChunk].
  - destruct (t =? "")%string eqn:E.
    + apply String.eqb_eq in E. subst t. rewrite append_empty. now apply IH.
    + cbn [fst snd]. rewrite setText_placeholder by assumption. now apply IH.
  - now apply IH.
Qed.

(** X13.  [handleSend] does nothing when the input is blank or a request is
    under way: nothing is sent and nothing is appended.  Otherwise, with a
    clock that has moved on (the stream starts no earlier than the message
    was sent and than any id on the page), it sends the input as typed, and
    the page gains the user's message followed by the answer: the bot's one
    message with the whole text streamed, followed by the apology when the
    stream broke off, or the apology alone when the request was rejected;
    earlier messages are untouched, the input is emptied and the loading
    flag is off in the end, also after a failure. *)
Theorem handleSend_appends_exchange (sentAt : Z) (outcome : Outcome) (st : TextTutor) :
  clockMovesOn sentAt outcome st ->
  handleSend sentAt outcome st =
  if blank (input st) || isLoading st then st
  else {| messages := messages st ++
                      {| msg_id := sentAt; role := user; text := input st |} :: answer outcome;
          input := "";
          isLoading := false;
          sent := sent st ++ [input st] |}.
Proof.
  intros Hclock. unfold handleSend.
  destruct (blank (input st) || isLoading st); [reflexivity|].
  f_equal. destruct outcome as [failedAt | startedAt chunks ending]; cbn [answer text].
  - now rewrite <- app_assoc.
  - destruct Hclock as [Hs Hold].
    assert (Hids : Forall (fun msg => msg_id msg <> (startedAt + 1)%Z)
                          (messages st ++ [{| msg_id := sentAt; role := user;
                                              text := input st |}])).
    { apply Forall_app. split.
      - eapply Forall_impl; [|exact Hold]. cbn. intros; lia.
      - repeat constructor. cbn. lia. }
    rewrite (receiveChunks_placeholder _ chunks "" _ Hids). cbn [snd].
    fold (streamed chunks).
    destruct ending; rewrite <- !app_assoc; reflexivity.
Qed.

Lemma handleSend_appends_exchange_witness :
  handleSend 1000 (Streaming 1200 [Some "**Excellent!**"; None; Some ""; Some " Go on."]
                             (Thrown 1500))
    {| messages := [{| msg_id := 10; role := user; text := "Hi" |};
                    {| msg_id := 21; role := model; text := "Hello!" |}];
       input := "I am fine"; isLoading := false; sent := ["Hi"] |} =
  {| messages := [{| msg_id := 10; role := user; text := "Hi" |};
                  {| msg_id := 21; role := model; text := "Hello!" |};
                  {| msg_id := 1000; role := user; text := "I am fine" |};
                  {| msg_id := 1201; role := model; text := "**Excellent!** Go on." |};
                  {| msg_id := 1500; role := model; text := apology |}];
     input := ""; isLoading := false; sent := ["Hi"; "I am fine"] |}.
Proof.
  rewrite handleSend_appends_exchange.
  - reflexivity.
  - split; [lia|]. repeat constructor; cbn; lia.
Defined.

(** A blank input: spaces, a tab, a line feed and a no-break space. *)
Example blank_input_is_not_sent :
  let st := {| messages := []; input := String (Ascii.ascii_of_nat 32)
                                       (String (Ascii.ascii_of_nat 9)
                                       (String (Ascii.ascii_of_nat 10)
                                       (String (Ascii.ascii_of_nat 160) "")));
               isLoading := false; sent := [] |} in
  handleSend 5 (Rejected 6) st = st.
Proof. reflexivity. Qed.

(** ** [renderMessageContent] *)

Lemma append_assoc_s (a b c : string) : ((a ++ b) ++ c = a ++ (b ++ c))%string.
Proof. induction a as [|x a IH]; [reflexivity | cbn; now rewrite IH]. Qed.

Lemma length_append_s (a b : string) :
  String.length (a ++ b) = (String.length a + String.length b)%nat.
Proof. induction a as [|x a IH]; [reflexivity | cbn; now rewrite IH]. Qed.

Lemma prefix_append (a b : string) : prefix a (a ++ b) = true.
Proof.
  induction a as [|x a IH]; cbn; [now destruct b|].
  destruct (Ascii.ascii_dec x x); [exact IH | congruence].
Qed.

Lemma prefix_split (a : string) : forall s, prefix a s = true -> exists b, s = (a ++ b)%string.
Proof.
  induction a as [|x a IH]; intros s H; [now exists s|].
  destruct s as [|y s]; [discriminate|]. cbn in H.
  destruct (Ascii.ascii_dec x y); [|discriminate]. subst y.
  destruct (IH s H) as [b ->]. now exists b.
Qed.

(** Passing over the rest of a marker. *)
Lemma splitFrom_skip (m : string) : forall piece s,
  splitFrom (String.length m) piece (m ++ s) = splitFrom 0 piece s.
Proof.
  induction m as [|x m IH]; intros piece s; cbn [String.length append].
  - destruct s; reflexivity.
  - cbn [splitFrom]. apply IH.
Qed.

(** One step of the scan. *)
Lemma splitFrom_step piece c rest :
  splitFrom 0 piece (String c rest) =
  if prefix correctionMarker (String c rest)
  then piece :: correctionMarker :: splitFrom (String.length correctionMarker - 1) "" rest
  else if prefix excellentMarker (String c rest)
  then piece :: excellentMarker :: splitFrom (String.length excellentMarker - 1) "" rest
  else splitFrom 0 (piece ++ String c "") rest.
Proof. reflexivity. Qed.

(** The three ways a scan goes on. *)
Lemma splitFrom_correction piece r :
  splitFrom 0 piece (correctionMarker ++ r) =
  piece :: correctionMarker :: splitFrom 0 "" r.
Proof.
  change (correctionMarker ++ r)%string
    with (String (Ascii.ascii_of_nat 42) ("*Correction:**" ++ r))%string.
  rewrite splitFrom_step.
  change (String (Ascii.ascii_of_nat 42) ("*Correction:**" ++ r))%string
    with (correctionMarker ++ r)%string.
  rewrite prefix_append.
  change (String.length correctionMarker - 1)%nat with (String.length "*Correction:**").
  now rewrite splitFrom_skip.
Qed.

Lemma splitFrom_excellent piece r :
  splitFrom 0 piece (excellentMarker ++ r) =
  piece :: excellentMarker :: splitFrom 0 "" r.
Proof.
  change (excellentMarker ++ r)%string
    with (String (Ascii.ascii_of_nat 42) ("*Excellent!**" ++ r))%string.
  rewrite splitFrom_step.
  change (String (Ascii.ascii_of_nat 42) ("*Excellent!**" ++ r))%string
    with (excellentMarker ++ r)%string.
  assert (Hc : prefix correctionMarker (excellentMarker ++ r) = false) by reflexivity.
  rewrite Hc, prefix_append.
  change (String.length excellentMarker - 1)%nat with (String.length "*Excellent!**").
  now rewrite splitFrom_skip.
Qed.

Lemma splitFrom_plain piece c rest :
  prefix correctionMarker (String c rest) = false ->
  prefix excellentMarker (String c rest) = false ->
  splitFrom 0 piece (String c rest) = splitFrom 0 (piece ++ String c "") rest.
Proof. intros H1 H2. now rewrite splitFrom_step, H1, H2. Qed.

Lemma append_nil_inv (a b : string) : (a ++ b)%string = ""%string -> a = ""%string /\ b = ""%string.
Proof. destruct a; [now split | discriminate]. Qed.

Lemma snoc_split (piece : string) : forall a b c,
  (piece ++ String c "")%string = (a ++ b)%string -> b <> ""%string ->
  exists b', b = (b' ++ String c "")%string /\ piece = (a ++ b')%string.
Proof.
  induction piece as [|y piece IH]; intros a b c H Hb.
  - destruct a as [|x a]; cbn in H.
    + exists ""%string. now split.
    + injection H as _ H. symmetry in H. apply append_nil_inv in H. now destruct H.
  - destruct a as [|x a]; cbn in H.
    + exists (String y piece). now split.
    + injection H as <- H. destruct (IH a b c H Hb) as (b' & -> & ->).
      now exists b'.
Qed.

Lemma pending_nil s : pending "" s.
Proof.
  intros a b H Hb. symmetry in H. apply append_nil_inv in H. now destruct H.
Qed.

Lemma pending_snoc piece c rest :
  pending piece (String c rest) ->
  prefix correctionMarker (String c rest) = false ->
  prefix excellentMarker (String c rest) = false ->
  pending (piece ++ String c "") rest.
Proof.
  intros H H1 H2 a b Hab Hb.
  destruct (snoc_split piece a b c Hab Hb) as (b' & -> & ->).
  rewrite append_assoc_s. cbn [append].
  destruct b' as [|x b']; [now split|].
  apply (H a (String x b')); [reflexivity | discriminate].
Qed.

Lemma pending_markerFree piece s : pending piece s -> markerFree piece.
Proof.
  intros H a b m Hm Heq.
  assert (Hne : (m ++ b)%string <> ""%string) by (destruct Hm; subst m; discriminate).
  destruct (H a (m ++ b)%string Heq Hne) as [H1 H2].
  rewrite append_assoc_s in H1, H2.
  destruct Hm; subst m; rewrite prefix_append in *; discriminate.
Qed.

(** From any point of the scan on: the parts alternate, and put together
    they are the piece read so far and what was still to scan. *)
Lemma splitFrom_alternating n : forall s piece,
  (String.length s <= n)%nat -> pending piece s ->
  Alternating (splitFrom 0 piece s) /\ joined (splitFrom 0 piece s) = (piece ++ s)%string.
Proof.
  induction n as [|n IH]; intros s piece Hlen Hp.
  - destruct s; [|cbn in Hlen; lia].
    split; [apply alt_last; eapply pending_markerFree; eassumption | reflexivity].
  - destruct s as [|c rest].
    { split; [apply alt_last; eapply pending_markerFree; eassumption | reflexivity]. }
    destruct (prefix correctionMarker (String c rest)) eqn:E1.
    { destruct (prefix_split _ _ E1) as [r Hr]. rewrite Hr in *.
      rewrite splitFrom_correction.
      rewrite length_append_s in Hlen. cbn in Hlen.
      destruct (IH r ""%string ltac:(lia) (pending_nil r)) as [Ha Hj].
      split.
      - apply alt_more; [eapply pending_markerFree; eassumption | now left | exact Ha].
      - change (joined (piece :: correctionMarker :: splitFrom 0 "" r))
          with (piece ++ (correctionMarker ++ joined (splitFrom 0 "" r)))%string.
        now rewrite Hj. }
    destruct (prefix excellentMarker (String c rest)) eqn:E2.
    { destruct (prefix_split _ _ E2) as [r Hr]. rewrite Hr in *.
      rewrite splitFrom_excellent.
      rewrite length_append_s in Hlen. cbn in Hlen.
      destruct (IH r ""%string ltac:(lia) (pending_nil r)) as [Ha Hj].
      split.
      - apply alt_more; [eapply pending_markerFree; eassumption | now right | exact Ha].
      - change (joined (piece :: excellentMarker :: splitFrom 0 "" r))
          with (piece ++ (excellentMarker ++ joined (splitFrom 0 "" r)))%string.
        now rewrite Hj. }
    rewrite (splitFrom_plain piece c rest E1 E2).
    cbn in Hlen.
    destruct (IH rest (piece ++ String c "")%string ltac:(lia)
                 (pending_snoc piece c rest Hp E1 E2)) as [Ha Hj].
    split; [exact Ha|]. rewrite Hj. now rewrite append_assoc_s.
Qed.

Lemma splitMarkers_alternating s :
  Alternating (splitMarkers s) /\ joined (splitMarkers s) = s.
Proof.
  apply (splitFrom_alternating (String.length s) s ""%string (Nat.le_refl _) (pending_nil s)).
Qed.

Lemma markerFree_not_marker p : markerFree p -> ~ isMarker p.
Proof.
  intros H Hm. apply (H ""%string ""%string p Hm). cbn. now rewrite append_empty.
Qed.

Lemma toSpan_text part : spanText (toSpan part) = part.
Proof.
  unfold toSpan.
  destruct (part =? correctionMarker)%string eqn:E1; [now apply String.eqb_eq in E1|].
  destruct (part =? excellentMarker)%string eqn:E2; [now apply String.eqb_eq in E2|].
  reflexivity.
Qed.

Lemma toSpan_plain part p : toSpan part = PlainSpan p -> p = part.
Proof. intros H. rewrite <- (toSpan_text part), H. reflexivity. Qed.

Lemma alternating_plain parts :
  Alternating parts -> forall p, In (PlainSpan p) (map toSpan parts) -> markerFree p.
Proof.
  induction 1 as [q Hq | q m rest Hq Hm _ IH]; intros p Hin; cbn in Hin.
  - destruct Hin as [Hin | []]. now rewrite (toSpan_plain _ _ Hin).
  - destruct Hin as [Hin | [Hin | Hin]].
    + now rewrite (toSpan_plain _ _ Hin).
    + exfalso. unfold toSpan in Hin. destruct Hm; subst m; discriminate.
    + now apply IH.
Qed.

(** X14.  Splitting a message at the two markers loses nothing: the parts
    put together again are the text; they are pieces with no marker left in
    them, with one marker between any two.  [renderMessageContent] shows the
    text as one paragraph exactly when no marker occurs in it; otherwise it
    shows spans which, the labels read as their markers, spell the text, and
    no plain span holds a marker. *)
Theorem render_keeps_text_and_labels_markers (s : string) :
  joined (splitMarkers s) = s /\
  Alternating (splitMarkers s) /\
  (markerFree s <-> renderMessageContent s = Paragraph s) /\
  match renderMessageContent s with
  | Paragraph p => p = s
  | Spans spans =>
      joined (map spanText spans) = s /\
      forall p, In (PlainSpan p) spans -> markerFree p
  end.
Proof.
  destruct (splitMarkers_alternating s) as [Ha Hj].
  split; [exact Hj|]. split; [exact Ha|].
  unfold renderMessageContent. split.
  - split.
    + intros Hfree. destruct Ha as [p Hp | p m rest Hp Hm _]; [reflexivity|].
      exfalso. apply (Hfree p (joined rest) m Hm). symmetry. exact Hj.
    + intros Hr. destruct Ha as [p Hp | p m rest Hp Hm _].
      * cbn [joined fold_right] in Hj. rewrite append_empty in Hj. now subst p.
      * cbn in Hr. discriminate.
  - destruct (1 <? List.length (splitMarkers s))%nat; [|reflexivity].
    split; [|now apply alternating_plain].
    rewrite map_map. rewrite <- Hj at 2. unfold joined.
    clear. induction (splitMarkers s) as [|p l IH]; [reflexivity|].
    cbn. now rewrite toSpan_text, IH.
Qed.

(** A correction followed by praise. *)
Example render_correction :
  renderMessageContent "**Correction:** I think so.**Excellent!**" =
  Spans [PlainSpan ""; CorrectionLabel; PlainSpan " I think so."; ExcellentLabel;
         PlainSpan ""].
Proof. vm_compute. reflexivity. Qed.
